(** * penny / demo/app.py: configuration loader, poller pool, status endpoint

    A shallow embedding of [src/demo/app.py] and the properties of its
    specification.

    Modelling conventions.
    - A Python [str] is a [string]; every character is a code point below
      256.  [os.environ] is a finite map from names to values.
    - A Python [int] is a [Z] (unbounded).
    - Code that can raise runs in the [result] monad; the exception keeps
      its class, and its message is kept up to the fixed prefix.
    - An f-string is kept as the list of its pieces: literal text and
      formatted values, in order.  Log records, the outbound GET and a
      completed [time.sleep] are events of a trace.
    - A poll thread is a state machine that runs one loop iteration per
      step; the world is an oracle giving, for each iteration, the outcome
      of the GET and the reading of the host's monotonic clock that
      [time.sleep] takes. *)

From Stdlib Require Import ZArith Ascii String List Lia.
From stdpp Require Import base tactics option list gmap strings.

Local Open Scope string_scope.
Local Open Scope Z_scope.
Local Open Scope list_scope.
Set Warnings "-register-all".

(** ** Exceptions and the error monad *)

Inductive exn : Type :=
| ValueError (msg : string)
| OverflowError (msg : string)
| IndexError (msg : string)
| OSError (msg : string)
| RequestException (reason : string).

Inductive result (A : Type) : Type :=
| Ok (a : A)
| Raise (e : exn).
Arguments Ok {A} a.
Arguments Raise {A} e.

#[global] Instance result_ret : MRet result := λ A a, Ok a.

#[global] Instance result_bind : MBind result := λ A B k m,
  match m with
  | Ok a => k a
  | Raise e => Raise e
  end.

(** [list(map(f, xs))]: elements are converted left to right and the first
    exception aborts the whole conversion. *)
Fixpoint list_map_raising {A B : Type} (f : A → result B) (xs : list A)
  : result (list B) :=
  match xs with
  | [] => Ok []
  | x :: rest =>
      y ← f x ;
      ys ← list_map_raising f rest;
      Ok (y :: ys)
  end.

(** ** Builtins used by the module *)

Module Py.

(** [os.getenv(key)] and [os.getenv(key, default)]. *)
Definition getenv (environ : gmap string string) (key : string)
  : option string := environ !! key.

Definition getenv_default (environ : gmap string string)
    (key dflt : string) : string :=
  default dflt (environ !! key).

(** Truth value of [os.getenv(key)]: [None] and [''] are false. *)
Definition truthy_opt (o : option string) : bool :=
  match o with
  | None => false
  | Some s => negb (String.eqb s "")
  end.

(** Truth value of a [str]. *)
Definition truthy (s : string) : bool := negb (String.eqb s "").

(** [s.split(sep)] for a one-character separator: never the empty list,
    empty fields are kept. *)
Fixpoint split (sep : ascii) (s : string) : list string :=
  match s with
  | EmptyString => [EmptyString]
  | String c rest =>
      if Ascii.eqb c sep then EmptyString :: split sep rest
      else match split sep rest with
           | [] => [String c EmptyString]
           | w :: ws => String c w :: ws
           end
  end.

(** [sep.join(parts)], the inverse reading of [split]. *)
Fixpoint join (sep : ascii) (parts : list string) : string :=
  match parts with
  | [] => EmptyString
  | [w] => w
  | w :: rest => w +:+ String sep (join sep rest)
  end.

(** Some character of [s] satisfies [P]; every character does. *)
Fixpoint string_exists (P : ascii → bool) (s : string) : bool :=
  match s with
  | EmptyString => false
  | String c rest => P c || string_exists P rest
  end.

Definition string_forall (P : ascii → bool) (s : string) : bool :=
  negb (string_exists (λ c, negb (P c)) s).

Definition code (c : ascii) : Z := Z.of_N (N_of_ascii c).

(** White space that [int()] strips on both sides: the ASCII characters
    TAB, LF, VT, FF, CR and SPACE, and the two white-space code points of
    the range 127..255, NEL (133) and NBSP (160). *)
Definition int_space (c : ascii) : bool :=
  let n := code c in
  ((9 <=? n) && (n <=? 13)) || (n =? 32) || (n =? 133) || (n =? 160).

Definition digit_of (c : ascii) : option Z :=
  let n := code c in
  if (48 <=? n) && (n <=? 57) then Some (n - 48) else None.

Definition is_underscore (c : ascii) : bool := code c =? 95.

Fixpoint skip_spaces (s : string) : string :=
  match s with
  | String c rest => if int_space c then skip_spaces rest else s
  | EmptyString => EmptyString
  end.

(** The digit scan of [int()]: digits with single underscores between
    them.  [prev_us] tells that the previous character was an underscore;
    the result is the value, the number of digits and the unread rest.
    [None] is a syntax error (doubled or trailing underscore). *)
Fixpoint scan_digits (prev_us : bool) (acc ndigits : Z) (s : string)
  : option (Z * Z * string) :=
  match s with
  | EmptyString => if prev_us then None else Some (acc, ndigits, s)
  | String c rest =>
      if is_underscore c then
        if prev_us then None else scan_digits true acc ndigits rest
      else
        match digit_of c with
        | Some d => scan_digits false (10 * acc + d) (ndigits + 1) rest
        | None => if prev_us then None else Some (acc, ndigits, s)
        end
  end.

(** [sys.int_info.default_max_str_digits]. *)
Definition max_str_digits : Z := 4300.

Definition invalid_literal : exn :=
  ValueError "invalid literal for int() with base 10".

Definition too_many_digits : exn :=
  ValueError "Exceeds the limit (4300 digits) for integer string conversion".

(** [int(s)] in base 10: optional white space, an optional sign, digits
    (single underscores allowed between digits, not in front), optional
    white space.  Anything else raises [ValueError], and so does a literal
    of more than [max_str_digits] digits.  [int_digits] is the part after
    the sign. *)
Definition int_digits (sign : Z) (s2 : string) : result Z :=
  match s2 with
  | String c _ =>
      if is_underscore c then Raise invalid_literal
      else
        match scan_digits false 0 0 s2 with
        | None => Raise invalid_literal
        | Some (v, nd, s3) =>
            if max_str_digits <? nd then Raise too_many_digits
            else if nd =? 0 then Raise invalid_literal
            else
              match skip_spaces s3 with
              | EmptyString => Ok (sign * v)
              | String _ _ => Raise invalid_literal
              end
        end
  | EmptyString => Raise invalid_literal
  end.

Definition int (s : string) : result Z :=
  let s1 := skip_spaces s in
  match s1 with
  | String c r =>
      if Ascii.eqb c "+" then int_digits 1 r
      else if Ascii.eqb c "-" then int_digits (-1) r
      else int_digits 1 s1
  | EmptyString => int_digits 1 s1
  end.

(** [lst[i]] for an index [i >= 0]. *)
Definition getitem {A : Type} (lst : list A) (i : nat) : result A :=
  match lst !! i with
  | Some x => Ok x
  | None => Raise (IndexError "list index out of range")
  end.

(** The largest number of seconds [time.sleep] converts to its signed
    64-bit count of nanoseconds: (2^63 - 1) / 10^9, rounded down. *)
Definition sleep_max : Z := 9223372036.

Definition int64_max : Z := 9223372036854775807.

(** A signed 64-bit sum, wrapped. *)
Definition wrap64 (z : Z) : Z :=
  (z + 9223372036854775808) mod 18446744073709551616 - 9223372036854775808.

(** [time.sleep(secs)] for an [int], called when the monotonic clock of
    the host reads [monotonic_ns] nanoseconds.  The length is converted to
    nanoseconds ([OverflowError] when that does not fit 64 bits) and
    refused when negative ([ValueError]); the deadline is the clock plus
    the length, as a wrapped 64-bit sum, and a deadline that has wrapped
    below zero is refused by the system call ([OSError], EINVAL).
    Otherwise the call returns after [secs] seconds. *)
Definition sleep (monotonic_ns secs : Z) : result unit :=
  if (secs <? - sleep_max) || (sleep_max <? secs)
  then Raise (OverflowError "timestamp too large to convert to C _PyTime_t")
  else if secs <? 0
  then Raise (ValueError "sleep length must be non-negative")
  else if wrap64 (monotonic_ns + secs * 1000000000) <? 0
  then Raise (OSError "[Errno 22] Invalid argument")
  else Ok tt.

End Py.

(** ** Module-level configuration (lines 12-14) *)

Record config : Type := Config {
  SERVICE_NAME : string;
  TARGETS : list string;
  INTERVALS : list Z;
}.

Definition load_SERVICE_NAME (environ : gmap string string) : string :=
  Py.getenv_default environ "SERVICE_NAME" "unknown".

Definition load_TARGETS (environ : gmap string string) : list string :=
  if Py.truthy_opt (Py.getenv environ "TARGETS")
  then Py.split "," (Py.getenv_default environ "TARGETS" "")
  else [].

Definition load_INTERVALS (environ : gmap string string) : result (list Z) :=
  list_map_raising Py.int (Py.split "," (Py.getenv_default environ "INTERVALS" "60")).

(** The three assignments, in source order; the last one can raise. *)
Definition load_config (environ : gmap string string) : result config :=
  let name := load_SERVICE_NAME environ in
  let targets := load_TARGETS environ in
  intervals ← load_INTERVALS environ;
  Ok (Config name targets intervals).

(** ** Status endpoint (lines 16-27) *)

Inductive json : Type :=
| JString (s : string)
| JNumber (n : Z)
| JArray (items : list json)
| JObject (fields : list (string * json)).

(** A view's return value [jsonify(body), status]. *)
Record response : Type := Response {
  body : json;
  status : Z;
}.

(** Value of a field of a JSON object. *)
Fixpoint assoc (k : string) (fields : list (string * json)) : option json :=
  match fields with
  | [] => None
  | (k', v) :: rest => if String.eqb k k' then Some v else assoc k rest
  end.

Definition field (k : string) (j : json) : option json :=
  match j with
  | JObject fields => assoc k fields
  | _ => None
  end.

Definition health (cfg : config) : response :=
  Response
    (JObject [("status", JString "healthy");
              ("service", JString (SERVICE_NAME cfg))])
    200.

Definition index (cfg : config) : response :=
  Response
    (JObject [("service", JString (SERVICE_NAME cfg));
              ("message", JString ("Hello from " +:+ SERVICE_NAME cfg +:+ "!"));
              ("targets", JArray (JString <$> TARGETS cfg));
              ("intervals", JArray (JNumber <$> INTERVALS cfg))])
    200.

(** ** Effects of the poller: traces of events *)

(** A piece of an f-string: literal text, or a formatted value. *)
Inductive piece : Type :=
| Lit (text : string)
| FStr (s : string)
| FInt (n : Z)
| FStrs (l : list string)
| FInts (l : list Z)
| FExn (e : exn).

Inductive event : Type :=
| LogInfo (msg : list piece)
| LogError (msg : list piece)
| HttpGet (url : string) (timeout : Z)   (* requests.get(url, timeout=..) is called *)
| Sleep (secs : Z)                       (* time.sleep(secs) has returned *)
| ThreadStart (target : string) (interval : Z).

(** A computation that emits events and then returns or raises. *)
Definition io (A : Type) : Type := (list event * result A)%type.

#[global] Instance io_ret : MRet io := λ A a, ([], Ok a).

#[global] Instance io_bind : MBind io := λ A B k m,
  match m with
  | (tr, Ok a) => let '(tr', r) := k a in (tr ++ tr', r)
  | (tr, Raise e) => (tr, Raise e)
  end.

Definition emit (ev : event) : io unit := ([ev], Ok tt).

Definition lift {A : Type} (r : result A) : io A := ([], r).

(** [try: body / except Exception as e: handler(e)]: what the body emitted
    before it raised stays in the trace. *)
Definition try_except {A : Type} (body : io A) (handler : exn → io A) : io A :=
  match body with
  | (tr, Ok a) => (tr, Ok a)
  | (tr, Raise e) => let '(tr', r) := handler e in (tr ++ tr', r)
  end.

(** What the network does with one GET: an HTTP response with its status
    code, or an exception raised by [requests.get] (connection refused, DNS
    failure, timeout). *)
Inductive get_outcome : Type :=
| Responded (status_code : Z)
| Failed (e : exn).

(** [requests.get(url, timeout=timeout)], returning [response.status_code]. *)
Definition requests_get (url : string) (timeout : Z) (net : get_outcome)
  : io Z :=
  emit (HttpGet url timeout) ;;
  match net with
  | Responded status_code => mret status_code
  | Failed e => lift (Raise e)
  end.

(** What the world does during one iteration of a poll thread: the
    outcome of its GET, and the reading of the monotonic clock, in
    nanoseconds, that [time.sleep] takes. *)
Record moment : Type := Moment {
  outcome : get_outcome;
  monotonic_ns : Z;
}.

(** [time.sleep(secs)]: the thread has slept when the call returns. *)
Definition time_sleep (monotonic_ns secs : Z) : io unit :=
  lift (Py.sleep monotonic_ns secs) ;; emit (Sleep secs).

(** ** The poll loop (lines 29-39) *)

(** One iteration of the [while True] body.  [name] is the global
    [SERVICE_NAME], and [world] is what the network and the clock do. *)
Definition loop_body (name target : string) (interval : Z) (world : moment)
  : io unit :=
  try_except
    (emit (LogInfo [Lit "["; FStr name; Lit "] Calling "; FStr target; Lit "..."]) ;;
     status_code ← requests_get ("http://" +:+ target) 5 (outcome world);
     emit (LogInfo [Lit "["; FStr name; Lit "] Response from "; FStr target;
                    Lit ": "; FInt status_code]))
    (λ e,
     emit (LogError [Lit "["; FStr name; Lit "] Error calling "; FStr target;
                     Lit ": "; FExn e])) ;;
  time_sleep (monotonic_ns world) interval.

(** The loop has no [break] and no [return]: the only way out is an
    exception that escapes an iteration.  [StillLooping] is the state of a
    thread that is back at [while True]. *)
Inductive running : Type := StillLooping.

(** [make_request(target, interval)] run against what the world does in
    its first iterations, one iteration for each moment: the trace so far,
    and either [Ok StillLooping] or the exception that ended the thread. *)
Fixpoint make_request (name target : string) (interval : Z)
    (world : list moment) : io running :=
  match world with
  | [] => mret StillLooping
  | m :: world' =>
      loop_body name target interval m ;;
      make_request name target interval world'
  end.

(** ** Starting the pool (lines 41-48) *)

Fixpoint start_from (cfg : config) (i : nat) (targets : list string) : io unit :=
  match targets with
  | [] => mret tt
  | target :: rest =>
      (if Py.truthy target then
         interval ← (if bool_decide (i < length (INTERVALS cfg))%nat
                     then lift (Py.getitem (INTERVALS cfg) i)
                     else mret 60);
         emit (ThreadStart target interval) ;;
         emit (LogInfo [Lit "["; FStr (SERVICE_NAME cfg);
                        Lit "] Started periodic calls to "; FStr target;
                        Lit " every "; FInt interval; Lit "s"])
       else mret tt) ;;
      start_from cfg (S i) rest
  end.

(** [for i, target in enumerate(TARGETS): ...] *)
Definition start_periodic_calls (cfg : config) : io unit :=
  start_from cfg 0 (TARGETS cfg).

(** The (target, interval) pairs of the threads started in a trace. *)
Definition started (tr : list event) : list (string * Z) :=
  omap (λ ev, match ev with
              | ThreadStart target interval => Some (target, interval)
              | _ => None
              end) tr.

(** ** The process (lines 50-59) *)

(** A poll thread: its arguments, the trace it has produced, and whether
    it is still in its loop or has been ended by an exception. *)
Record thread : Type := Thread {
  th_target : string;
  th_interval : Z;
  th_trace : list event;
  th_state : result running;
}.

(** [Thread(target=make_request, args=(target, interval)).start()] *)
Definition spawn (args : string * Z) : thread :=
  Thread args.1 args.2 [] (Ok StillLooping).

(** A live thread runs one more iteration, in the moment [net] of the
    world; a thread that an exception has ended does nothing more. *)
Definition thread_step (name : string) (net : moment) (t : thread) : thread :=
  match th_state t with
  | Ok StillLooping =>
      let '(tr, r) := loop_body name (th_target t) (th_interval t) net in
      Thread (th_target t) (th_interval t) (th_trace t ++ tr)
             (r ;; Ok StillLooping)
  | Raise _ => t
  end.

Definition thread_run (name : string) (nets : list moment) (t : thread)
  : thread :=
  foldl (λ t net, thread_step name net t) t nets.

(** The process once [app.run] is reached: the configuration, the start-up
    log and the poll threads. *)
Record process : Type := Process {
  p_config : config;
  p_log : list event;
  p_threads : list thread;
}.

(** The script from import to [app.run]: [Raise] is a start-up crash, [Ok]
    a process that serves. *)
Definition main (environ : gmap string string) : result process :=
  cfg ← load_config environ;
  let banner :=
    [LogInfo [Lit "Starting "; FStr (SERVICE_NAME cfg); Lit "..."];
     LogInfo [Lit "Targets: "; FStrs (TARGETS cfg)];
     LogInfo [Lit "Intervals: "; FInts (INTERVALS cfg)]] in
  let '(tr, r) := start_periodic_calls cfg in
  r ;;
  Ok (Process cfg (banner ++ tr) (spawn <$> started tr)).

(** What happens while the process serves: thread [i] runs an iteration,
    in the moment [net] of the world. *)
Definition poll (i : nat) (net : moment) (p : process) : process :=
  Process (p_config p) (p_log p)
          (alter (thread_step (SERVICE_NAME (p_config p)) net) i (p_threads p)).

Definition polls (schedule : list (nat * moment)) (p : process) : process :=
  foldl (λ p s, poll s.1 s.2 p) p schedule.

(** The two routes, served by a running process. *)
Definition serve_health (p : process) : response := health (p_config p).
Definition serve_index (p : process) : response := index (p_config p).

(** ** Vocabulary of the properties *)

(** Characters of an integer literal. *)
Definition is_minus (c : ascii) : bool := Ascii.eqb c "-".
Definition is_plus (c : ascii) : bool := Ascii.eqb c "+".

Definition nonzero_digit (c : ascii) : bool :=
  match Py.digit_of c with
  | Some d => 0 <? d
  | None => false
  end.

Definition digit_or_underscore (c : ascii) : bool :=
  Py.is_underscore c || match Py.digit_of c with Some _ => true | None => false end.

(** An entry that starts with a digit: no white space or sign in front. *)
Definition starts_with_digit (w : string) : bool :=
  match w with
  | String c _ => match Py.digit_of c with Some _ => true | None => false end
  | EmptyString => false
  end.

(** The characters that can occur in a literal that [int()] accepts. *)
Definition int_char (c : ascii) : bool :=
  Py.int_space c || is_plus c || is_minus c || digit_or_underscore c.

(** An element that [int()] cannot read: the empty string, or one with a
    character that is no digit, sign, underscore or white space, or any
    other string on which [int()] raises. *)
Definition malformed (w : string) : Prop :=
  w = "" ∨ Py.string_forall int_char w = false ∨ ∃ e, Py.int w = Raise e.

(** The pairing policy in the words of the specification: the interval of
    the target at position [i] is [intervals[i]] when [i] is a valid index,
    and 60 otherwise. *)
Definition paired_interval (intervals : list Z) (i : nat) : Z :=
  match intervals !! i with
  | Some n => n
  | None => 60
  end.

(** The threads the specification expects: one for every non-empty target,
    in order, each paired by its own position in [targets]. *)
Definition expected_from (intervals : list Z) (i : nat) (targets : list string)
  : list (string * Z) :=
  omap id (imap (λ k target,
                   if Py.truthy target
                   then Some (target, paired_interval intervals (i + k))
                   else None) targets).

Definition expected_threads (targets : list string) (intervals : list Z)
  : list (string * Z) := expected_from intervals 0 targets.

(** The number of threads started before position [i] is reached. *)
Definition rank (targets : list string) (i : nat) : nat :=
  length (filter (λ t, t ≠ "") (take i targets)).

(** The trace of one iteration: the two events up to the GET and the
    record of its outcome ([attempt]), and then the sleep when
    [time.sleep] has returned ([tick]). *)
Definition calling (name target : string) : list event :=
  [LogInfo [Lit "["; FStr name; Lit "] Calling "; FStr target; Lit "..."];
   HttpGet ("http://" +:+ target) 5].

Definition outcome_record (name target : string) (net : get_outcome) : event :=
  match net with
  | Responded status_code =>
      LogInfo [Lit "["; FStr name; Lit "] Response from "; FStr target;
               Lit ": "; FInt status_code]
  | Failed e =>
      LogError [Lit "["; FStr name; Lit "] Error calling "; FStr target;
                Lit ": "; FExn e]
  end.

Definition attempt (name target : string) (net : get_outcome) : list event :=
  calling name target ++ [outcome_record name target net].

Definition tick (name target : string) (interval : Z) (net : get_outcome)
  : list event :=
  attempt name target net ++ [Sleep interval].

(** A sufficient condition for [time.sleep(secs)] to return, which is also
    necessary when the clock reading is a non-negative 64-bit number: the
    length is not negative and the deadline does not pass 2^63 - 1
    nanoseconds. *)
Definition sleep_fits (monotonic_ns secs : Z) : Prop :=
  0 ≤ secs ∧ 0 ≤ monotonic_ns ∧
  monotonic_ns + secs * 1000000000 ≤ Py.int64_max.

(** The moments that a schedule delivers to thread [i], in order. *)
Definition outcomes_of (i : nat) (schedule : list (nat * moment))
  : list moment :=
  (filter (λ s, s.1 = i) schedule).*2.

(** The two events of one pass of the start-up loop that starts a thread:
    the thread start and the log line that reports it. *)
Definition start_record (name : string) (args : string * Z) : list event :=
  [ThreadStart args.1 args.2;
   LogInfo [Lit "["; FStr name; Lit "] Started periodic calls to ";
            FStr args.1; Lit " every "; FInt args.2; Lit "s"]].

(** The GETs issued in a trace, as (url, timeout), and the lengths of the
    sleeps asked for, both in order. *)
Definition gets (tr : list event) : list (string * Z) :=
  omap (λ ev, match ev with
              | HttpGet url timeout => Some (url, timeout)
              | _ => None
              end) tr.


(** * Properties *)

(** ** Splitting *)

Section split.
Variable sep : ascii.

Lemma split_cons (s : string) : ∃ w ws, Py.split sep s = w :: ws.
Proof.
  induction s as [|c rest [w [ws IH]]]; simpl; [by eauto|].
  destruct (Ascii.eqb c sep); [by eauto|]. rewrite IH. by eauto.
Qed.

Lemma split_length (s : string) : (1 ≤ length (Py.split sep s))%nat.
Proof. destruct (split_cons s) as (w & ws & ->). simpl. lia. Qed.

Lemma join_split (s : string) : Py.join sep (Py.split sep s) = s.
Proof.
  induction s as [|c rest IH]; [done|]. simpl.
  destruct (split_cons rest) as (w & ws & Hs). rewrite Hs in IH |- *.
  destruct (Ascii.eqb_spec c sep) as [->|_].
  - change (Py.join sep (EmptyString :: w :: ws))
      with (String sep (Py.join sep (w :: ws))). by rewrite IH.
  - destruct ws as [|w' ws]; simpl in *; by rewrite <- IH.
Qed.

Lemma split_no_sep (s : string) :
  Forall (λ w, sep ∉ list_ascii_of_string w) (Py.split sep s).
Proof.
  induction s as [|c rest IH]; simpl.
  - constructor; [|done]. simpl. by apply not_elem_of_nil.
  - destruct (Ascii.eqb_spec c sep) as [->|Hne].
    + constructor; [|done]. simpl. by apply not_elem_of_nil.
    + destruct (Py.split sep rest) as [|w ws].
      * constructor; [|done]. simpl. apply not_elem_of_cons.
        split; [done|]. by apply not_elem_of_nil.
      * inversion IH; subst. constructor; [|done]. simpl.
        by apply not_elem_of_cons.
Qed.

Lemma split_append_field (w rest : string) :
  sep ∉ list_ascii_of_string w →
  Py.split sep (w +:+ String sep rest) = w :: Py.split sep rest.
Proof.
  induction w as [|c w IHw]; simpl; intros Hw.
  - by rewrite Ascii.eqb_refl.
  - apply not_elem_of_cons in Hw as [Hc Hw].
    destruct (Ascii.eqb_spec c sep) as [->|_]; [done|]. by rewrite IHw.
Qed.

Lemma split_one_field (w : string) :
  sep ∉ list_ascii_of_string w → Py.split sep w = [w].
Proof.
  induction w as [|c w IHw]; simpl; intros Hw; [done|].
  apply not_elem_of_cons in Hw as [Hc Hw].
  destruct (Ascii.eqb_spec c sep) as [->|_]; [done|]. by rewrite IHw.
Qed.

(** [split] is determined by the two facts above: however [s] is written
    as fields without the separator, joined by it, those are the fields
    that [split] returns, empty ones included. *)
Lemma split_join (parts : list string) :
  parts ≠ [] →
  Forall (λ w, sep ∉ list_ascii_of_string w) parts →
  Py.split sep (Py.join sep parts) = parts.
Proof.
  induction parts as [|w parts IH]; [done|]. intros _ Hall.
  inversion Hall as [|? ? Hw Hparts]; subst.
  destruct parts as [|w' parts].
  - by apply split_one_field.
  - change (Py.join sep (w :: w' :: parts))
      with (w +:+ String sep (Py.join sep (w' :: parts))).
    rewrite split_append_field by done. by rewrite IH.
Qed.
End split.

(** ** [list(map(int, ...))] *)

Lemma list_map_raising_Ok {A B : Type} (f : A → result B) xs ys :
  list_map_raising f xs = Ok ys ↔ Forall2 (λ x y, f x = Ok y) xs ys.
Proof.
  revert ys. induction xs as [|x xs IH]; intros ys; simpl.
  - split; [intros [= <-]; constructor | by inversion 1].
  - destruct (f x) as [y|e] eqn:Hx; simpl.
    + destruct (list_map_raising f xs) as [ys'|e] eqn:Hxs; simpl.
      * split.
        -- intros [= <-]. constructor; [done|]. by apply IH.
        -- inversion 1 as [|? y' ? ys'' Hy Hys]; subst.
           apply IH in Hys. congruence.
      * split; [done|]. inversion 1 as [|? y' ? ys'' Hy Hys]; subst.
        apply IH in Hys. done.
    + split; [done|]. inversion 1; congruence.
Qed.

Lemma list_map_raising_Raise {A B : Type} (f : A → result B) xs x e :
  x ∈ xs → f x = Raise e → ∃ e', list_map_raising f xs = Raise e' ∧
                                   ∃ x', x' ∈ xs ∧ f x' = Raise e'.
Proof.
  intros Hin Hx. induction Hin as [x xs | x y xs Hin IH]; simpl.
  - rewrite Hx. simpl. exists e. split; [done|]. exists x. split; [left|done].
  - destruct (f y) as [b|e0] eqn:Hy; simpl.
    + destruct (IH Hx) as (e' & -> & x' & Hx' & Hfx'). simpl.
      exists e'. split; [done|]. exists x'. split; [by right|done].
    + exists e0. split; [done|]. exists y. split; [left|done].
Qed.

(** ** Pairing targets with intervals *)

Lemma truthy_spec (s : string) : Py.truthy s = true ↔ s ≠ "".
Proof.
  unfold Py.truthy. destruct (String.eqb_spec s ""); simpl; split; congruence.
Qed.

Lemma expected_from_cons intervals i target rest :
  expected_from intervals i (target :: rest) =
  (if Py.truthy target then [(target, paired_interval intervals i)] else [])
    ++ expected_from intervals (S i) rest.
Proof.
  unfold expected_from. rewrite imap_cons. simpl.
  rewrite Nat.add_0_r.
  replace (imap _ rest) with
    (imap (λ k target0, if Py.truthy target0
                        then Some (target0, paired_interval intervals (S i + k))
                        else None) rest).
  - by destruct (Py.truthy target).
  - apply imap_ext. intros k x _. simpl. by rewrite Nat.add_succ_r.
Qed.

Lemma getitem_paired intervals i :
  (if bool_decide (i < length intervals)%nat
   then Py.getitem intervals i else Ok 60) = Ok (paired_interval intervals i).
Proof.
  unfold Py.getitem, paired_interval. case_bool_decide as Hi.
  - apply lookup_lt_is_Some_2 in Hi as [n ->]. done.
  - rewrite lookup_ge_None_2; [done|lia].
Qed.

Lemma start_from_spec cfg i targets :
  ∃ tr, start_from cfg i targets = (tr, Ok tt) ∧
        started tr = expected_from (INTERVALS cfg) i targets.
Proof.
  revert i. induction targets as [|target rest IH]; intros i.
  - by exists [].
  - destruct (IH (S i)) as (tr & Hrun & Hst).
    rewrite expected_from_cons. simpl. rewrite Hrun.
    destruct (Py.truthy target).
    + pose proof (getitem_paired (INTERVALS cfg) i) as Hget.
      case_bool_decide; rewrite Hget || (injection Hget as <-);
        eexists; (split; [reflexivity|]); simpl; by rewrite Hst.
    + eexists. split; [reflexivity|]. by simpl.
Qed.

Lemma start_periodic_calls_spec cfg :
  ∃ tr, start_periodic_calls cfg = (tr, Ok tt) ∧
        started tr = expected_threads (TARGETS cfg) (INTERVALS cfg).
Proof. apply start_from_spec. Qed.

(** ** Reaching [app.run] *)

Lemma main_serves environ cfg :
  load_config environ = Ok cfg → ∃ p, main environ = Ok p ∧ p_config p = cfg.
Proof.
  intros Hcfg. unfold main. rewrite Hcfg. simpl.
  destruct (start_periodic_calls_spec cfg) as (tr & -> & _). simpl. by eauto.
Qed.

Lemma load_config_fields environ cfg :
  load_config environ = Ok cfg →
  SERVICE_NAME cfg = load_SERVICE_NAME environ ∧
  TARGETS cfg = load_TARGETS environ ∧
  load_INTERVALS environ = Ok (INTERVALS cfg).
Proof.
  unfold load_config. destruct (load_INTERVALS environ) as [l|e]; simpl; [|done].
  by intros [= <-].
Qed.

Lemma polls_config schedule p : p_config (polls schedule p) = p_config p.
Proof.
  revert p. induction schedule as [|s schedule IH]; intros p; [done|].
  simpl. by rewrite IH.
Qed.

Lemma expected_from_names intervals j targets :
  (expected_from intervals j targets).*1 = filter (λ t, t ≠ "") targets.
Proof.
  revert j. induction targets as [|t rest IH]; intros j; [done|].
  rewrite expected_from_cons, fmap_app, IH, filter_cons.
  destruct (Py.truthy t) eqn:Ht.
  - apply truthy_spec in Ht. by rewrite decide_True.
  - rewrite decide_False; [done|]. intros Hne. apply truthy_spec in Hne.
    congruence.
Qed.

Lemma expected_from_lookup intervals j targets i target :
  targets !! i = Some target → target ≠ "" →
  expected_from intervals j targets !! rank targets i
  = Some (target, paired_interval intervals (j + i)).
Proof.
  revert i j. induction targets as [|t rest IH]; intros i j Hi Hne; [done|].
  rewrite expected_from_cons. destruct i as [|i]; simpl in Hi.
  - injection Hi as ->. apply truthy_spec in Hne. rewrite Hne.
    by rewrite Nat.add_0_r.
  - unfold rank. rewrite firstn_cons, filter_cons.
    replace (j + S i)%nat with (S j + i)%nat by lia.
    destruct (Py.truthy t) eqn:Ht.
    + apply truthy_spec in Ht. rewrite decide_True by done. simpl.
      by apply IH.
    + rewrite decide_False.
      * simpl. by apply IH.
      * intros Hne'. apply truthy_spec in Hne'. congruence.
Qed.

(** ** C1, C2: the pool that [start_periodic_calls] starts *)

(** C1. Positional pairing: starting the pool never raises, and the thread
    of the non-empty target at position [i] is started with
    [INTERVALS[i]] when [i] is a valid index into [INTERVALS] and with the
    literal 60 otherwise.  For targets a, b, c and intervals 5, 10 the
    threads are (a, 5), (b, 10) and (c, 60). *)
Theorem C1_positional_pairing (cfg : config) :
  ∃ tr, start_periodic_calls cfg = (tr, Ok tt) ∧
    (∀ i target, TARGETS cfg !! i = Some target → target ≠ "" →
       ∃ interval,
         started tr !! rank (TARGETS cfg) i = Some (target, interval) ∧
         ((i < length (INTERVALS cfg))%nat →
            INTERVALS cfg !! i = Some interval) ∧
         ((length (INTERVALS cfg) ≤ i)%nat → interval = 60)) ∧
    (TARGETS cfg = ["a"; "b"; "c"] → INTERVALS cfg = [5; 10] →
       started tr = [("a", 5); ("b", 10); ("c", 60)]).
Proof.
  destruct (start_periodic_calls_spec cfg) as (tr & Hrun & Hst).
  exists tr. split; [done|]. split.
  - intros i target Hi Hne. exists (paired_interval (INTERVALS cfg) i).
    rewrite Hst. unfold expected_threads.
    rewrite (expected_from_lookup _ 0 _ i target) by done.
    split; [done|]. unfold paired_interval. split.
    + intros Hlt. apply lookup_lt_is_Some_2 in Hlt as [n ->]. done.
    + intros Hge. by rewrite lookup_ge_None_2.
  - intros Ht Hi. rewrite Hst, Ht, Hi. reflexivity.
Qed.

Lemma C1_witness :
  ∃ tr, start_periodic_calls (Config "svc" ["a"; "b"; "c"] [5; 10]) = (tr, Ok tt)
        ∧ started tr !! 2%nat = Some ("c", 60)
        ∧ started tr = [("a", 5); ("b", 10); ("c", 60)].
Proof.
  destruct (C1_positional_pairing (Config "svc" ["a"; "b"; "c"] [5; 10]))
    as (tr & Hrun & Hpos & Hex).
  exists tr. split; [exact Hrun|]. split.
  - destruct (Hpos 2%nat "c" eq_refl ltac:(discriminate))
      as (interval & Hth & _ & Hdflt).
    rewrite (Hdflt ltac:(simpl; lia)) in Hth. exact Hth.
  - exact (Hex eq_refl eq_refl).
Defined.

(** C2. Empty targets are skipped and positions are the original ones: the
    threads started are exactly the non-empty targets, in order, and the
    thread of the target at position [i] is paired with position [i] of
    [INTERVALS], however many empty targets come before it.  For targets
    a, (empty), b there are two threads, and b is paired with
    [INTERVALS[2]]. *)
Theorem C2_empty_targets_skipped (cfg : config) :
  ∃ tr, start_periodic_calls cfg = (tr, Ok tt) ∧
    (started tr).*1 = filter (λ t, t ≠ "") (TARGETS cfg) ∧
    length (started tr) = length (filter (λ t, t ≠ "") (TARGETS cfg)) ∧
    (∀ i target, TARGETS cfg !! i = Some target → target ≠ "" →
       started tr !! rank (TARGETS cfg) i
       = Some (target, paired_interval (INTERVALS cfg) i)) ∧
    (∀ x y z, TARGETS cfg = ["a"; ""; "b"] → INTERVALS cfg = [x; y; z] →
       started tr = [("a", x); ("b", z)]).
Proof.
  destruct (start_periodic_calls_spec cfg) as (tr & Hrun & Hst).
  exists tr. split; [done|]. rewrite Hst. unfold expected_threads.
  split; [apply expected_from_names|]. split.
  - rewrite <- (expected_from_names (INTERVALS cfg) 0).
    by rewrite length_fmap.
  - split.
    + intros i target Hi Hne.
      by rewrite (expected_from_lookup _ 0 _ i target).
    + intros x y z -> ->. reflexivity.
Qed.

Lemma C2_witness :
  ∃ tr, start_periodic_calls (Config "svc" ["a"; ""; "b"] [5; 10; 15]) = (tr, Ok tt)
        ∧ length (started tr) = 2%nat
        ∧ started tr !! 1%nat = Some ("b", 15)
        ∧ started tr = [("a", 5); ("b", 15)].
Proof.
  destruct (C2_empty_targets_skipped (Config "svc" ["a"; ""; "b"] [5; 10; 15]))
    as (tr & Hrun & _ & Hlen & Hpos & Hex).
  exists tr. split; [exact Hrun|]. split; [exact Hlen|]. split.
  - exact (Hpos 2%nat "b" eq_refl ltac:(discriminate)).
  - exact (Hex 5 10 15 eq_refl eq_refl).
Defined.

(** ** What [int()] accepts *)

Section int_literals.
Import Py.

Lemma string_exists_app P s1 s2 :
  string_exists P (s1 +:+ s2) = string_exists P s1 || string_exists P s2.
Proof.
  induction s1 as [|c s1 IH]; simpl; [done|]. by rewrite IH, orb_assoc.
Qed.

Lemma string_forall_cons P c s :
  string_forall P (String c s) = P c && string_forall P s.
Proof. unfold string_forall. simpl. by rewrite negb_orb, negb_involutive. Qed.

Lemma string_exists_excluded P Q s :
  (∀ c, Q c = true → P c = false) →
  string_forall Q s = true → string_exists P s = false.
Proof.
  intros HPQ. induction s as [|c s IH]; [done|].
  rewrite string_forall_cons. intros [Hc Hs]%andb_prop. simpl.
  by rewrite (HPQ c Hc), IH.
Qed.

Lemma skip_spaces_split s :
  ∃ pre, s = pre +:+ skip_spaces s ∧ string_forall int_space pre = true.
Proof.
  induction s as [|c s (pre & Hs & Hpre)]; simpl.
  - by exists "".
  - destruct (int_space c) eqn:Hc.
    + exists (String c pre). split; [by rewrite Hs at 1|].
      by rewrite string_forall_cons, Hc, Hpre.
    + by exists "".
Qed.

Lemma skip_spaces_empty s :
  skip_spaces s = "" → string_forall int_space s = true.
Proof.
  intros Hs. destruct (skip_spaces_split s) as (pre & Heq & Hpre).
  rewrite Hs in Heq. rewrite Heq. unfold string_forall in *.
  rewrite string_exists_app. simpl. by rewrite orb_false_r.
Qed.

Lemma digit_of_range c d : digit_of c = Some d → 0 ≤ d ≤ 9.
Proof.
  unfold digit_of. destruct (_ && _) eqn:H; [|done]. intros [= <-]. lia.
Qed.

Lemma scan_digits_inv s : ∀ prev_us acc nd v nd' rest,
  scan_digits prev_us acc nd s = Some (v, nd', rest) → 0 ≤ acc →
  ∃ body, s = body +:+ rest ∧
          string_forall digit_or_underscore body = true ∧
          0 ≤ v ∧
          (0 < v ↔ 0 < acc ∨ string_exists nonzero_digit body = true).
Proof.
  induction s as [|c s IH]; intros prev_us acc nd v nd' rest; simpl.
  - destruct prev_us; [done|]. intros [= <- <- <-] Hacc.
    exists "". repeat split; try done; [by left|]. intros [H|H]; done.
  - destruct (is_underscore c) eqn:Hus.
    + destruct prev_us; [done|]. intros Hscan Hacc.
      destruct (IH _ _ _ _ _ _ Hscan Hacc) as (body & -> & Hbody & Hv & Hpos).
      exists (String c body). split; [done|].
      rewrite string_forall_cons, Hbody. unfold digit_or_underscore at 1.
      rewrite Hus. do 2 (split; [done|]). simpl.
      unfold nonzero_digit at 1, digit_of.
      unfold is_underscore in Hus. apply Z.eqb_eq in Hus. rewrite Hus.
      simpl. exact Hpos.
    + destruct (digit_of c) as [d|] eqn:Hd.
      * intros Hscan Hacc. pose proof (digit_of_range _ _ Hd) as Hrange.
        destruct (IH _ _ _ _ _ _ Hscan ltac:(lia))
          as (body & -> & Hbody & Hv & Hpos).
        exists (String c body). split; [done|].
        rewrite string_forall_cons, Hbody. unfold digit_or_underscore at 1.
        rewrite Hd, Hus. simpl. do 2 (split; [done|]).
        unfold nonzero_digit at 1. rewrite Hd.
        rewrite Hpos. destruct (0 <? d) eqn:H0; simpl.
        -- apply Z.ltb_lt in H0. split; [by right|]. intros _. left. lia.
        -- apply Z.ltb_ge in H0. split; (intros [?|?]; [left; lia|by right]).
      * destruct prev_us; [done|]. intros [= <- <- <-] Hacc.
        exists "". repeat split; try done; [by left|]. intros [H|H]; done.
Qed.

(** Character classes exclude one another. *)
Lemma space_not_minus c : int_space c = true → is_minus c = false.
Proof.
  unfold is_minus. destruct (Ascii.eqb_spec c "-") as [->|]; [|done].
  by vm_compute.
Qed.

Lemma space_not_digit c : int_space c = true → nonzero_digit c = false.
Proof.
  unfold int_space, nonzero_digit, digit_of. set (n := code c).
  destruct ((48 <=? n) && (n <=? 57)) eqn:Hd; [|done].
  destruct ((9 <=? n) && (n <=? 13)) eqn:H1, (n =? 32) eqn:H2,
    (n =? 133) eqn:H3, (n =? 160) eqn:H4; simpl; try done; lia.
Qed.

Lemma body_not_minus c : digit_or_underscore c = true → is_minus c = false.
Proof.
  unfold is_minus. destruct (Ascii.eqb_spec c "-") as [->|]; [|done].
  by vm_compute.
Qed.

Lemma space_int_char c : int_space c = true → negb (int_char c) = false.
Proof. unfold int_char. by intros ->. Qed.

Lemma body_int_char c : digit_or_underscore c = true → negb (int_char c) = false.
Proof. unfold int_char. intros ->. by rewrite !orb_true_r. Qed.

(** The shape of an accepted literal, after the sign. *)
Lemma int_digits_shape sign s2 n :
  int_digits sign s2 = Ok n →
  ∃ body post v,
    s2 = body +:+ post ∧ n = sign * v ∧
    string_forall digit_or_underscore body = true ∧
    string_forall int_space post = true ∧
    0 ≤ v ∧ (0 < v ↔ string_exists nonzero_digit body = true).
Proof.
  unfold int_digits. destruct s2 as [|c s2]; [done|].
  destruct (is_underscore c); [done|].
  destruct (scan_digits false 0 0 (String c s2)) as [[[v nd] s3]|] eqn:Hscan;
    [|done].
  destruct (max_str_digits <? nd); [done|]. destruct (nd =? 0); [done|].
  destruct (skip_spaces s3) eqn:Hpost; [|done]. intros [= <-].
  apply scan_digits_inv in Hscan as (body & Hs & Hbody & Hv & Hpos); [|done].
  exists body, s3, v. repeat split; try done.
  - by apply skip_spaces_empty.
  - intros H. apply Hpos in H as [H|H]; [lia|done].
  - intros H. apply Hpos. by right.
Qed.

(** The shape of an accepted literal: white space, a sign or none, digits
    and underscores, white space; the sign and the digits give the value. *)
Lemma int_shape w n :
  int w = Ok n →
  ∃ pre sg body post v,
    w = pre +:+ sg +:+ body +:+ post ∧
    string_forall int_space pre = true ∧
    ((sg = "" ∨ sg = "+") ∧ n = v ∨ sg = "-" ∧ n = - v) ∧
    string_forall digit_or_underscore body = true ∧
    string_forall int_space post = true ∧
    0 ≤ v ∧ (0 < v ↔ string_exists nonzero_digit body = true).
Proof.
  unfold int. destruct (skip_spaces_split w) as (pre & Hw & Hpre).
  destruct (skip_spaces w) as [|c r] eqn:Hs1; [done|].
  destruct (Ascii.eqb_spec c "+") as [->|Hplus];
    [|destruct (Ascii.eqb_spec c "-") as [->|Hminus]];
    intros (body & post & v & Hs2 & -> & Hbody & Hpost & Hv & Hpos)%int_digits_shape.
  - exists pre, "+", body, post, v. subst r.
    split_and!; try done. left. split; [by right|lia].
  - exists pre, "-", body, post, v. subst r.
    split_and!; try done. right. split; [done|lia].
  - exists pre, "", body, post, v. rewrite Hs2 in Hw.
    split_and!; try done. left. split; [by left|lia].
Qed.

(** A literal that [int()] accepts has only sign, digit, underscore and
    white-space characters, and it denotes a positive number exactly when
    it has no minus sign and has a digit other than 0. *)
Lemma int_Ok_inv w n :
  int w = Ok n →
  string_forall int_char w = true ∧
  (0 < n ↔ string_exists is_minus w = false ∧
           string_exists nonzero_digit w = true).
Proof.
  intros (pre & sg & body & post & v & -> & Hpre & Hsg & Hbody & Hpost & Hv & Hpos)%int_shape.
  unfold string_forall. rewrite !string_exists_app.
  rewrite (string_exists_excluded _ _ pre space_int_char Hpre).
  rewrite (string_exists_excluded _ _ post space_int_char Hpost).
  rewrite (string_exists_excluded _ _ body body_int_char Hbody).
  rewrite (string_exists_excluded _ _ pre space_not_minus Hpre).
  rewrite (string_exists_excluded _ _ post space_not_minus Hpost).
  rewrite (string_exists_excluded _ _ body body_not_minus Hbody).
  rewrite (string_exists_excluded _ _ pre space_not_digit Hpre).
  rewrite (string_exists_excluded _ _ post space_not_digit Hpost).
  destruct Hsg as [[[->| ->] ->]|[-> ->]]; simpl; rewrite ?orb_false_r.
  - split; [done|]. rewrite Hpos. tauto.
  - split; [done|]. rewrite Hpos. tauto.
  - split; [done|]. split; [lia|]. by intros [? _].
Qed.

Lemma int_raises_ValueError w e : int w = Raise e → ∃ msg, e = ValueError msg.
Proof.
  assert (∀ sign s, int_digits sign s = Raise e → ∃ msg, e = ValueError msg)
    as Hdigits.
  { intros sign s. unfold int_digits, invalid_literal, too_many_digits.
    repeat case_match; intros [= <-]; by eauto. }
  unfold int. repeat case_match; by apply Hdigits.
Qed.

(** What [int()] reads from the digits does not depend on the sign in
    front of them. *)
Lemma int_digits_sign sign w n :
  int_digits sign w = Ok n →
  ∃ v, n = sign * v ∧ 0 ≤ v ∧ ∀ sign', int_digits sign' w = Ok (sign' * v).
Proof.
  unfold int_digits. destruct w as [|c w]; [done|].
  destruct (is_underscore c); [done|].
  destruct (scan_digits false 0 0 (String c w)) as [[[v nd] s3]|] eqn:Hscan;
    [|done].
  destruct (max_str_digits <? nd); [done|]. destruct (nd =? 0); [done|].
  destruct (skip_spaces s3); [|done]. intros [= <-].
  apply scan_digits_inv in Hscan as (_ & _ & _ & Hv & _); [|done].
  by exists v.
Qed.

(** An accepted entry that starts with a digit denotes a number that is
    not negative, and with a minus sign in front it is accepted too and
    denotes the opposite number. *)
Lemma int_minus w n :
  starts_with_digit w = true → int w = Ok n →
  0 ≤ n ∧ int ("-" +:+ w) = Ok (- n).
Proof.
  destruct w as [|c w]; [done|]. simpl.
  destruct (digit_of c) as [d|] eqn:Hd; [|done]. intros _.
  assert (int_space c = false) as Hspace.
  { destruct (int_space c) eqn:Hc; [|done]. exfalso.
    unfold int_space in Hc. unfold digit_of in Hd. set (k := code c) in *.
    destruct ((48 <=? k) && (k <=? 57)) eqn:H0; [|done].
    destruct ((9 <=? k) && (k <=? 13)) eqn:H1, (k =? 32) eqn:H2,
      (k =? 133) eqn:H3, (k =? 160) eqn:H4; simpl in Hc; try done; lia. }
  assert (Ascii.eqb c "+" = false) as Hplus.
  { destruct (Ascii.eqb_spec c "+") as [->|]; [|done]. by vm_compute in Hd. }
  assert (Ascii.eqb c "-" = false) as Hminus.
  { destruct (Ascii.eqb_spec c "-") as [->|]; [|done]. by vm_compute in Hd. }
  assert (int (String c w) = int_digits 1 (String c w)) as ->.
  { unfold int. cbn [skip_spaces]. by rewrite Hspace, Hplus, Hminus. }
  assert (int ("-" +:+ String c w) = int_digits (-1) (String c w)) as ->
    by reflexivity.
  intros (v & -> & Hv & Hany)%int_digits_sign.
  split; [lia|]. rewrite Hany. f_equal. lia.
Qed.
End int_literals.

(** ** C5, C8, C9, C10: the configuration loader *)

Lemma load_INTERVALS_unset environ :
  environ !! "INTERVALS" = None → load_INTERVALS environ = Ok [60].
Proof.
  intros Hunset. unfold load_INTERVALS, Py.getenv_default. by rewrite Hunset.
Qed.

Lemma load_INTERVALS_set environ v :
  environ !! "INTERVALS" = Some v →
  load_INTERVALS environ = list_map_raising Py.int (Py.split "," v).
Proof.
  intros Hset. unfold load_INTERVALS, Py.getenv_default. by rewrite Hset.
Qed.

Lemma main_crashes environ e :
  load_INTERVALS environ = Raise e → main environ = Raise e.
Proof. intros H. unfold main, load_config. by rewrite H. Qed.

Lemma malformed_raises w : malformed w → ∃ e, Py.int w = Raise e.
Proof.
  intros [->|[Hbad|Hraise]]; [by eexists| |done].
  destruct (Py.int w) as [n|e] eqn:Hint; [|by eauto].
  apply int_Ok_inv in Hint as [Hchars _]. congruence.
Qed.

(** C5. When INTERVALS is unset the intervals are [60].  Otherwise the
    value is split at the commas and every element is read by [int()]: the
    list is accepted exactly when every element is, and one malformed
    element raises a [ValueError] that ends the script before [app.run], so
    that the process never serves. *)
Theorem C5_intervals_parsing (environ : gmap string string) :
  (environ !! "INTERVALS" = None → load_INTERVALS environ = Ok [60]) ∧
  (∀ v, environ !! "INTERVALS" = Some v →
     (∀ l, load_INTERVALS environ = Ok l ↔
           Forall2 (λ w n, Py.int w = Ok n) (Py.split "," v) l) ∧
     (∀ w, w ∈ Py.split "," v → malformed w →
        ∃ msg, load_INTERVALS environ = Raise (ValueError msg) ∧
               load_config environ = Raise (ValueError msg) ∧
               main environ = Raise (ValueError msg))).
Proof.
  split; [apply load_INTERVALS_unset|]. intros v Hset.
  rewrite (load_INTERVALS_set _ _ Hset). split.
  - intros l. apply list_map_raising_Ok.
  - intros w Hw [e Hraise]%malformed_raises.
    destruct (list_map_raising_Raise _ _ _ _ Hw Hraise)
      as (e' & Hload & w' & _ & Hw').
    apply int_raises_ValueError in Hw' as [msg ->].
    exists msg. split; [done|].
    rewrite <- (load_INTERVALS_set _ _ Hset) in Hload.
    split; [|by apply main_crashes].
    unfold load_config. by rewrite Hload.
Qed.

Lemma C5_witness :
  load_INTERVALS ∅ = Ok [60] ∧
  load_INTERVALS {[ "INTERVALS" := "5, 10" ]} = Ok [5; 10] ∧
  ∃ msg, main {[ "INTERVALS" := "5,1.5" ]} = Raise (ValueError msg).
Proof.
  split; [apply (proj1 (C5_intervals_parsing ∅)); reflexivity|]. split.
  - apply (proj2 (C5_intervals_parsing {[ "INTERVALS" := "5, 10" ]}) "5, 10");
      [reflexivity|].
    change (Py.split "," "5, 10") with ["5"; " 10"].
    repeat constructor.
  - assert (({[ "INTERVALS" := "5,1.5" ]} : gmap string string) !! "INTERVALS"
            = Some "5,1.5") as Hset by reflexivity.
    destruct (proj2 (C5_intervals_parsing _) _ Hset) as [_ Hfatal].
    destruct (Hfatal "1.5") as (msg & _ & _ & Hmain).
    + change (Py.split "," "5,1.5") with ["5"; "1.5"]. right. left.
    + right. left. reflexivity.
    + exists msg. exact Hmain.
Defined.

(** C8. When TARGETS is unset or empty the targets are the empty list.
    Otherwise they are the value split at the commas: no entry has a comma,
    joining the entries with commas gives the value back, and however the
    value is written as comma-free entries joined by commas, empty entries
    included, those entries, in that order, are the targets. *)
Theorem C8_targets_parsing (environ : gmap string string) :
  (environ !! "TARGETS" = None ∨ environ !! "TARGETS" = Some "" →
     load_TARGETS environ = []) ∧
  (∀ v, environ !! "TARGETS" = Some v → v ≠ "" →
     load_TARGETS environ = Py.split "," v ∧
     Py.join "," (load_TARGETS environ) = v ∧
     Forall (λ w, ("," : ascii) ∉ list_ascii_of_string w)
            (load_TARGETS environ) ∧
     (∀ parts, parts ≠ [] →
        Forall (λ w, ("," : ascii) ∉ list_ascii_of_string w) parts →
        Py.join "," parts = v → load_TARGETS environ = parts)).
Proof.
  unfold load_TARGETS, Py.getenv, Py.getenv_default. split.
  - by intros [-> | ->].
  - intros v -> Hv. simpl.
    destruct (String.eqb_spec v "") as [|_]; [done|]. simpl.
    split; [done|]. split; [apply join_split|]. split; [apply split_no_sep|].
    intros parts Hne Hparts <-. by apply split_join.
Qed.

Lemma C8_witness :
  load_TARGETS ∅ = [] ∧
  load_TARGETS {[ "TARGETS" := "" ]} = [] ∧
  load_TARGETS {[ "TARGETS" := "a,,b" ]} = ["a"; ""; "b"].
Proof.
  split; [apply (proj1 (C8_targets_parsing ∅)); left; reflexivity|]. split.
  - apply (proj1 (C8_targets_parsing {[ "TARGETS" := "" ]})).
    right. reflexivity.
  - apply (proj2 (C8_targets_parsing {[ "TARGETS" := "a,,b" ]}) "a,,b");
      [reflexivity|discriminate|discriminate| |reflexivity].
    apply (bool_decide_unpack _). reflexivity.
Defined.

(** C9, as stated, fails: a zero and a negative entry are accepted at
    start-up and stay in the list. *)
Lemma C9_counterexample :
  load_config {[ "INTERVALS" := "30,0,-5" ]}
  = Ok (Config "unknown" [] [30; 0; -5]) ∧
  ¬ Forall (λ n, 0 < n) (INTERVALS (Config "unknown" [] [30; 0; -5])).
Proof.
  split; [reflexivity|]. simpl. intros H.
  apply Forall_cons in H as [_ H]. apply Forall_cons in H as [H _]. lia.
Qed.

(** C9, amended. The loader applies [int()] to every comma-separated
    entry of INTERVALS (of 60 when unset) and checks nothing else.  The
    configuration is accepted exactly when [int()] reads every entry, and
    then the script reaches [app.run] with exactly the integers read,
    whatever their signs; an element is positive exactly when its entry
    has no minus sign and has a digit other than 0.  Zero and negative
    entries are accepted as they are: 0 is read as 0, and every accepted
    entry that starts with a digit is also accepted with a minus sign in
    front, as the opposite number. *)
Theorem C9_intervals_are_the_integers_read (environ : gmap string string) :
  let entries := Py.split "," (Py.getenv_default environ "INTERVALS" "60") in
  (∀ l, load_INTERVALS environ = Ok l
        ↔ Forall2 (λ w n, Py.int w = Ok n) entries l) ∧
  (∀ l, Forall2 (λ w n, Py.int w = Ok n) entries l →
        ∃ p, main environ = Ok p ∧ INTERVALS (p_config p) = l) ∧
  (∀ cfg, load_config environ = Ok cfg →
     Forall2 (λ w n, Py.int w = Ok n ∧
                     (0 < n ↔ Py.string_exists is_minus w = false ∧
                              Py.string_exists nonzero_digit w = true))
             entries (INTERVALS cfg)) ∧
  Py.int "0" = Ok 0 ∧
  (∀ w n, starts_with_digit w = true → Py.int w = Ok n →
          0 ≤ n ∧ Py.int ("-" +:+ w) = Ok (- n)).
Proof.
  intros entries. split_and!.
  - intros l. apply list_map_raising_Ok.
  - intros l Hl. apply list_map_raising_Ok in Hl.
    destruct (main_serves environ
                (Config (load_SERVICE_NAME environ) (load_TARGETS environ) l))
      as (p & Hmain & Hp).
    + unfold load_config, load_INTERVALS. fold entries. by rewrite Hl.
    + exists p. split; [done|]. by rewrite Hp.
  - intros cfg (_ & _ & Hload)%load_config_fields.
    apply list_map_raising_Ok in Hload.
    eapply Forall2_impl; [exact Hload|]. intros w n Hint. split; [done|].
    by apply int_Ok_inv in Hint as [_ Hpos].
  - reflexivity.
  - apply int_minus.
Qed.

Lemma C9_witness :
  ∃ p, main {[ "INTERVALS" := "30,0,-5" ]} = Ok p ∧
       INTERVALS (p_config p) = [30; 0; -5].
Proof.
  apply (proj1 (proj2 (C9_intervals_are_the_integers_read
                         {[ "INTERVALS" := "30,0,-5" ]}))).
  change (Forall2 (λ w n, Py.int w = Ok n) ["30"; "0"; "-5"] [30; 0; -5]).
  repeat constructor.
Defined.

(** C10. The intervals of an accepted configuration are never empty:
    splitting at the commas gives at least one element, and [int()] reads
    one integer from each. *)
Theorem C10_intervals_nonempty (environ : gmap string string) (cfg : config) :
  load_config environ = Ok cfg →
  (1 ≤ length (Py.split "," (Py.getenv_default environ "INTERVALS" "60")))%nat ∧
  length (INTERVALS cfg)
  = length (Py.split "," (Py.getenv_default environ "INTERVALS" "60")) ∧
  (1 ≤ length (INTERVALS cfg))%nat.
Proof.
  intros (_ & _ & Hload)%load_config_fields.
  apply list_map_raising_Ok, Forall2_length in Hload.
  pose proof (split_length "," (Py.getenv_default environ "INTERVALS" "60")).
  split; [done|]. split; [done|]. by rewrite <- Hload.
Qed.

Lemma C10_witness :
  (1 ≤ length (INTERVALS (Config "unknown" [] [60%Z])))%nat.
Proof.
  exact (proj2 (proj2 (C10_intervals_nonempty ∅ (Config "unknown" [] [60])
                                              eq_refl))).
Defined.

(** ** C6, C7: the status endpoint *)

(** C6. For every configuration that start-up accepts the process reaches
    [app.run], and from then on, whatever the poll threads have done,
    [GET /health] answers 200 with the body
    [{"status": "healthy", "service": <SERVICE_NAME>}], whose service field
    is the configured name (the value of SERVICE_NAME, "unknown" when
    unset). *)
Theorem C6_health (environ : gmap string string) (cfg : config) :
  load_config environ = Ok cfg →
  ∃ p, main environ = Ok p ∧
    ∀ schedule,
      serve_health (polls schedule p)
      = Response (JObject [("status", JString "healthy");
                           ("service", JString (SERVICE_NAME cfg))]) 200 ∧
      field "service" (body (serve_health (polls schedule p)))
      = Some (JString (default "unknown" (environ !! "SERVICE_NAME"))).
Proof.
  intros Hcfg. destruct (main_serves _ _ Hcfg) as (p & Hmain & Hp).
  exists p. split; [done|]. intros schedule.
  unfold serve_health. rewrite polls_config, Hp.
  split; [done|]. simpl.
  by apply load_config_fields in Hcfg as (-> & _ & _).
Qed.

Lemma C6_witness :
  ∃ p, main {[ "SERVICE_NAME" := "svcA"; "TARGETS" := "host1:9000" ]} = Ok p ∧
       serve_health (polls [(0%nat, Moment (Failed (RequestException "refused")) 1000);
                            (0%nat, Moment (Responded 503) 2000)] p)
       = Response (JObject [("status", JString "healthy");
                            ("service", JString "svcA")]) 200.
Proof.
  assert (load_config {[ "SERVICE_NAME" := "svcA"; "TARGETS" := "host1:9000" ]}
          = Ok (Config "svcA" ["host1:9000"] [60])) as Hcfg
    by (vm_compute; reflexivity).
  destruct (C6_health _ _ Hcfg) as (p & Hmain & Hserve).
  exists p. split; [exact Hmain|]. exact (proj1 (Hserve _)).
Defined.

(** C7. For every configuration that start-up accepts the process reaches
    [app.run], and from then on [GET /] answers 200 with the body
    [{"service": name, "message": "Hello from " + name + "!",
      "targets": targets, "intervals": intervals}], the two lists being
    the ones parsed at start-up, in their order.  For SERVICE_NAME=svcA,
    TARGETS=host1:9000,host2:9000 and INTERVALS=2 the body is the one
    given in the specification. *)
Theorem C7_index (environ : gmap string string) (cfg : config) :
  load_config environ = Ok cfg →
  ∃ p, main environ = Ok p ∧
    (∀ schedule,
       serve_index (polls schedule p)
       = Response
           (JObject [("service", JString (SERVICE_NAME cfg));
                     ("message",
                      JString ("Hello from " +:+ SERVICE_NAME cfg +:+ "!"));
                     ("targets", JArray (JString <$> TARGETS cfg));
                     ("intervals", JArray (JNumber <$> INTERVALS cfg))])
           200) ∧
    SERVICE_NAME cfg = default "unknown" (environ !! "SERVICE_NAME") ∧
    TARGETS cfg = load_TARGETS environ ∧
    load_INTERVALS environ = Ok (INTERVALS cfg) ∧
    (environ = {[ "SERVICE_NAME" := "svcA";
                  "TARGETS" := "host1:9000,host2:9000";
                  "INTERVALS" := "2" ]} →
     serve_index p
     = Response
         (JObject [("service", JString "svcA");
                   ("message", JString "Hello from svcA!");
                   ("targets", JArray [JString "host1:9000";
                                       JString "host2:9000"]);
                   ("intervals", JArray [JNumber 2])])
         200).
Proof.
  intros Hcfg. destruct (main_serves _ _ Hcfg) as (p & Hmain & Hp).
  exists p. split; [done|]. split.
  - intros schedule. unfold serve_index. by rewrite polls_config, Hp.
  - destruct (load_config_fields _ _ Hcfg) as (Hname & Htargets & Hintervals).
    split_and!; try done. intros ->. unfold serve_index. rewrite Hp.
    injection Hcfg as <-. reflexivity.
Qed.

Lemma C7_witness :
  ∃ p, main {[ "SERVICE_NAME" := "svcA";
               "TARGETS" := "host1:9000,host2:9000";
               "INTERVALS" := "2" ]} = Ok p ∧
       serve_index p
       = Response
           (JObject [("service", JString "svcA");
                     ("message", JString "Hello from svcA!");
                     ("targets", JArray [JString "host1:9000";
                                         JString "host2:9000"]);
                     ("intervals", JArray [JNumber 2])])
           200.
Proof.
  assert (load_config {[ "SERVICE_NAME" := "svcA";
                         "TARGETS" := "host1:9000,host2:9000";
                         "INTERVALS" := "2" ]}
          = Ok (Config "svcA" ["host1:9000"; "host2:9000"] [2])) as Hcfg
    by (vm_compute; reflexivity).
  destruct (C7_index _ _ Hcfg) as (p & Hmain & _ & _ & _ & _ & Hexample).
  exists p. split; [exact Hmain|]. exact (Hexample eq_refl).
Defined.

(** ** C3, C4: the poll loop *)

Lemma loop_body_trace name target interval m :
  loop_body name target interval m
  = match Py.sleep (monotonic_ns m) interval with
    | Ok _ => (tick name target interval (outcome m), Ok tt)
    | Raise e => (attempt name target (outcome m), Raise e)
    end.
Proof.
  destruct m as [[status_code|e] clock]; unfold loop_body, time_sleep, lift;
    simpl; by destruct (Py.sleep clock interval) as [[]|].
Qed.

Lemma wrap64_small z : 0 ≤ z ≤ Py.int64_max → Py.wrap64 z = z.
Proof.
  unfold Py.int64_max, Py.wrap64. intros Hz.
  rewrite Z.mod_small; lia.
Qed.

Lemma wrap64_wrapped z :
  Py.int64_max < z ≤ 2 * Py.int64_max → Py.wrap64 z < 0.
Proof.
  unfold Py.int64_max, Py.wrap64. intros Hz.
  replace (z + 9223372036854775808)
    with (z - 9223372036854775808 + 1 * 18446744073709551616) by lia.
  rewrite Z_mod_plus_full, Z.mod_small; lia.
Qed.

Lemma sleep_returns clock secs :
  sleep_fits clock secs → Py.sleep clock secs = Ok tt.
Proof.
  unfold sleep_fits, Py.int64_max. intros (Hsecs & Hclock & Hfits).
  unfold Py.sleep.
  assert ((secs <? - Py.sleep_max) = false) as ->
    by (apply Z.ltb_ge; unfold Py.sleep_max; lia).
  assert ((Py.sleep_max <? secs) = false) as ->
    by (apply Z.ltb_ge; unfold Py.sleep_max; lia).
  assert ((secs <? 0) = false) as -> by (apply Z.ltb_ge; lia).
  rewrite wrap64_small by (unfold Py.int64_max; lia).
  assert ((clock + secs * 1000000000 <? 0) = false) as ->
    by (apply Z.ltb_ge; lia).
  done.
Qed.

(** For a clock reading that is a non-negative 64-bit number, [sleep_fits]
    is exactly when [time.sleep] returns. *)
Lemma sleep_accepts_iff clock secs :
  0 ≤ clock ≤ Py.int64_max →
  Py.sleep clock secs = Ok tt ↔ sleep_fits clock secs.
Proof.
  intros Hclock. split; [|apply sleep_returns].
  unfold Py.sleep, sleep_fits.
  destruct (Z.ltb_spec secs (- Py.sleep_max)); [done|].
  destruct (Z.ltb_spec Py.sleep_max secs); [done|]. cbn [orb].
  destruct (Z.ltb_spec secs 0); [done|].
  destruct (Z.ltb_spec (Py.wrap64 (clock + secs * 1000000000)) 0) as [|Hw];
    [done|]. intros _. split; [done|]. split; [lia|].
  destruct (Z.le_gt_cases (clock + secs * 1000000000) Py.int64_max) as [|Hbig];
    [done|].
  pose proof (wrap64_wrapped (clock + secs * 1000000000)) as Hwrap.
  unfold Py.int64_max, Py.sleep_max in *. lia.
Qed.

Lemma make_request_cons name target interval m ms :
  make_request name target interval (m :: ms)
  = match Py.sleep (monotonic_ns m) interval with
    | Ok _ =>
        (tick name target interval (outcome m)
           ++ (make_request name target interval ms).1,
         (make_request name target interval ms).2)
    | Raise e => (attempt name target (outcome m), Raise e)
    end.
Proof.
  simpl. rewrite loop_body_trace.
  destruct (Py.sleep (monotonic_ns m) interval); simpl; [|done].
  by destruct (make_request name target interval ms).
Qed.

Lemma make_request_loops name target interval ms :
  Forall (λ m, sleep_fits (monotonic_ns m) interval) ms →
  make_request name target interval ms
  = (concat ((λ m, tick name target interval (outcome m)) <$> ms),
     Ok StillLooping).
Proof.
  induction 1 as [|m ms Hm _ IH]; [done|].
  by rewrite make_request_cons, (sleep_returns _ _ Hm), IH.
Qed.

(** A thread that an exception has ended stays as it is. *)
Lemma thread_run_ended name nets t e :
  th_state t = Raise e → thread_run name nets t = t.
Proof.
  intros He. induction nets as [|net nets IH]; [done|].
  simpl. replace (thread_step name net t) with t; [exact IH|].
  unfold thread_step. by rewrite He.
Qed.

(** A thread of the pool is [make_request] run on its own moments. *)
Lemma thread_run_make_request name nets t :
  th_state t = Ok StillLooping →
  thread_run name nets t
  = Thread (th_target t) (th_interval t)
      (th_trace t ++ (make_request name (th_target t) (th_interval t) nets).1)
      (make_request name (th_target t) (th_interval t) nets).2.
Proof.
  revert t. induction nets as [|net nets IH]; intros [target interval tr st];
    simpl; intros ->.
  - by rewrite app_nil_r.
  - change (foldl _ ?t nets) with (thread_run name nets t).
    unfold thread_step. simpl. rewrite loop_body_trace.
    destruct (Py.sleep (monotonic_ns net) interval) as [[]|e] eqn:Hsleep; simpl.
    + rewrite IH by done. simpl.
      destruct (make_request name target interval nets) as [tr' r]. simpl.
      by rewrite <- app_assoc.
    + by rewrite (thread_run_ended _ _ _ e).
Qed.

Lemma outcomes_of_cons i s schedule :
  outcomes_of i (s :: schedule)
  = if decide (s.1 = i) then s.2 :: outcomes_of i schedule
    else outcomes_of i schedule.
Proof. unfold outcomes_of. rewrite filter_cons. by case_decide. Qed.

Lemma outcomes_of_others i j schedule :
  j ≠ i →
  outcomes_of j (filter (λ s, s.1 ≠ i) schedule) = outcomes_of j schedule.
Proof.
  intros Hne. induction schedule as [|s schedule IH]; [done|].
  rewrite filter_cons, (outcomes_of_cons j s schedule).
  destruct (decide (s.1 ≠ i)) as [Hs|Hs].
  - rewrite outcomes_of_cons, IH. done.
  - rewrite IH. rewrite decide_False; [done|].
    intros Hj. apply Hs. congruence.
Qed.

Lemma poll_lookup i net p j :
  p_threads (poll i net p) !! j
  = (if decide (i = j) then thread_step (SERVICE_NAME (p_config p)) net else id)
      <$> p_threads p !! j.
Proof.
  unfold poll. simpl. rewrite list_lookup_alter.
  case_decide as Hij; [by subst j|]. by destruct (p_threads p !! j).
Qed.

(** What a thread has done depends on its own moments only. *)
Lemma polls_lookup schedule p j :
  p_threads (polls schedule p) !! j
  = thread_run (SERVICE_NAME (p_config p)) (outcomes_of j schedule)
      <$> p_threads p !! j.
Proof.
  revert p. induction schedule as [|[i net] schedule IH]; intros p.
  - simpl. by destruct (p_threads p !! j).
  - change (polls ((i, net) :: schedule) p) with (polls schedule (poll i net p)).
    rewrite IH, poll_lookup, outcomes_of_cons. simpl.
    case_decide; destruct (p_threads p !! j); done.
Qed.

(** The threads of a process that has just reached [app.run] are in
    their loop and have done nothing yet. *)
Lemma main_threads_fresh environ p i t :
  main environ = Ok p → p_threads p !! i = Some t →
  th_state t = Ok StillLooping ∧ th_trace t = [].
Proof.
  unfold main. destruct (load_config environ) as [cfg|e]; simpl; [|done].
  destruct (start_periodic_calls cfg) as [tr [[]|e]]; simpl; [|done].
  intros [= <-]. simpl. rewrite list_lookup_fmap.
  destruct (started tr !! i) as [args|]; simpl; [|done]. by intros [= <-].
Qed.

(** C3, as stated, fails for a thread whose interval [time.sleep] refuses:
    INTERVALS=-1 is accepted at start-up, the thread of target a is started
    with interval -1, and its first failed GET is caught and logged, but
    the [time.sleep(-1)] after it raises outside the [try]; the thread is
    ended without having slept, and attempts no second GET. *)
Lemma C3_counterexample :
  ∃ p, main {[ "TARGETS" := "a"; "INTERVALS" := "-1" ]} = Ok p ∧
       p_threads p = [Thread "a" (-1) [] (Ok StillLooping)] ∧
       let refused :=
         Moment (Failed (RequestException "Connection refused")) 1000 in
       p_threads (polls [(0%nat, refused)] p)
       = [Thread "a" (-1)
            (attempt "unknown" "a" (outcome refused))
            (Raise (ValueError "sleep length must be non-negative"))] ∧
       p_threads (polls [(0%nat, refused); (0%nat, refused)] p)
       = p_threads (polls [(0%nat, refused)] p) ∧
       make_request "unknown" "a" (-1) [refused; refused]
       = (attempt "unknown" "a" (outcome refused),
          Raise (ValueError "sleep length must be non-negative")).
Proof. eexists. split; [reflexivity|]. by vm_compute. Qed.

(** C3, amended. Take a poll thread of a process that has reached
    [app.run], and a schedule in which every GET of that thread fails, [N]
    times in all, and in which [time.sleep] accepts the thread's interval
    each time it is called (the interval is not negative and the monotonic
    clock, in nanoseconds, plus the interval does not pass 2^63 - 1).
    Every failure is caught and logged and followed by a sleep of the
    interval; the thread is still in its loop afterwards and runs tick
    [N+1], whose GET it issues.  The other threads are where they would be
    had the failures not happened, no thread is lost, and both routes
    answer as before. *)
Theorem C3_transport_failures_recovered (environ : gmap string string)
    (p : process) (i : nat) (t : thread)
    (schedule : list (nat * moment)) (errs : list exn) :
  main environ = Ok p →
  p_threads p !! i = Some t →
  outcome <$> outcomes_of i schedule = Failed <$> errs →
  Forall (λ m, sleep_fits (monotonic_ns m) (th_interval t))
         (outcomes_of i schedule) →
  let name := SERVICE_NAME (p_config p) in
  let failed e :=
    calling name (th_target t)
      ++ [LogError [Lit "["; FStr name; Lit "] Error calling ";
                    FStr (th_target t); Lit ": "; FExn e];
          Sleep (th_interval t)] in
  make_request name (th_target t) (th_interval t) (outcomes_of i schedule)
  = (concat (failed <$> errs), Ok StillLooping) ∧
  p_threads (polls schedule p) !! i
  = Some (Thread (th_target t) (th_interval t)
            (concat (failed <$> errs)) (Ok StillLooping)) ∧
  (∀ next, ∃ rest state,
     p_threads (poll i next (polls schedule p)) !! i
     = Some (Thread (th_target t) (th_interval t)
               (concat (failed <$> errs)
                  ++ calling name (th_target t)
                  ++ [outcome_record name (th_target t) (outcome next)]
                  ++ rest)
               state) ∧
     (sleep_fits (monotonic_ns next) (th_interval t) →
      rest = [Sleep (th_interval t)] ∧ state = Ok StillLooping)) ∧
  (∀ j, j ≠ i →
     p_threads (polls schedule p) !! j
     = p_threads (polls (filter (λ s, s.1 ≠ i) schedule) p) !! j) ∧
  length (p_threads (polls schedule p)) = length (p_threads p) ∧
  serve_health (polls schedule p) = serve_health p ∧
  serve_index (polls schedule p) = serve_index p.
Proof.
  intros Hmain Hi Houts Hsleep name failed.
  destruct (main_threads_fresh _ _ _ _ Hmain Hi) as [Hloop Hfresh].
  assert ((λ m, tick name (th_target t) (th_interval t) (outcome m))
            <$> outcomes_of i schedule = failed <$> errs) as Hticks.
  { transitivity (tick name (th_target t) (th_interval t)
                    <$> (outcome <$> outcomes_of i schedule)).
    - by rewrite <- list_fmap_compose.
    - rewrite Houts, <- list_fmap_compose. by apply list_fmap_ext. }
  assert (make_request name (th_target t) (th_interval t)
            (outcomes_of i schedule)
          = (concat (failed <$> errs), Ok StillLooping)) as Hrun.
  { rewrite make_request_loops by done. by rewrite Hticks. }
  assert (p_threads (polls schedule p) !! i
          = Some (Thread (th_target t) (th_interval t)
                    (concat (failed <$> errs)) (Ok StillLooping)))
    as Hafter.
  { rewrite polls_lookup, Hi. simpl. fold name.
    rewrite thread_run_make_request by done. by rewrite Hrun, Hfresh. }
  split_and!; try done.
  - intros next. rewrite poll_lookup, Hafter, decide_True by done. simpl.
    rewrite polls_config. fold name. unfold thread_step. simpl.
    rewrite loop_body_trace.
    destruct (Py.sleep (monotonic_ns next) (th_interval t)) as [[]|e]
      eqn:Hnext; simpl.
    + exists [Sleep (th_interval t)], (Ok StillLooping).
      split; [|done]. by unfold tick, attempt, calling.
    + exists [], (Raise e). split.
      * by unfold attempt, calling.
      * intros Hfits. by rewrite (sleep_returns _ _ Hfits) in Hnext.
  - intros j Hj. by rewrite !polls_lookup, outcomes_of_others.
  - clear. revert p. induction schedule as [|s schedule IH]; intros p; [done|].
    simpl. rewrite IH. unfold poll. simpl. apply length_alter.
  - unfold serve_health. by rewrite polls_config.
  - unfold serve_index. by rewrite polls_config.
Qed.

Lemma C3_witness :
  ∃ p, main {[ "TARGETS" := "a,b"; "INTERVALS" := "5" ]} = Ok p ∧
       let refused := Failed (RequestException "Connection refused") in
       let timeout := Failed (RequestException "Read timed out") in
       th_state <$> p_threads (polls [(0%nat, Moment refused 1000);
                                      (1%nat, Moment (Responded 200) 2000);
                                      (0%nat, Moment timeout 5000001000)] p)
                    !! 0%nat
       = Some (Ok StillLooping).
Proof.
  assert (∃ p, main {[ "TARGETS" := "a,b"; "INTERVALS" := "5" ]} = Ok p ∧
               p_threads p = [spawn ("a", 5); spawn ("b", 60)])
    as (p & Hmain & Hthreads) by (eexists; split; reflexivity).
  exists p. split; [exact Hmain|]. intros refused timeout.
  assert (p_threads p !! 0%nat = Some (spawn ("a", 5))) as Hi
    by (rewrite Hthreads; reflexivity).
  set (schedule := [(0%nat, Moment refused 1000);
                    (1%nat, Moment (Responded 200) 2000);
                    (0%nat, Moment timeout 5000001000)]).
  assert (Forall (λ m, sleep_fits (monotonic_ns m) (th_interval (spawn ("a", 5))))
                 (outcomes_of 0 schedule)) as Hsleep.
  { repeat constructor; vm_compute; discriminate. }
  pose proof (C3_transport_failures_recovered _ p 0 (spawn ("a", 5)) schedule
                [RequestException "Connection refused";
                 RequestException "Read timed out"]
                Hmain Hi eq_refl Hsleep) as H.
  cbv zeta in H. destruct H as (_ & Hafter & _).
  rewrite Hafter. reflexivity.
Defined.




(** * Further properties of the module *)

(** ** Start-up *)

Lemma list_map_raising_Raise_inv {A B : Type} (f : A → result B) xs e :
  list_map_raising f xs = Raise e → ∃ x, x ∈ xs ∧ f x = Raise e.
Proof.
  induction xs as [|x xs IH]; simpl; [done|].
  destruct (f x) as [y|e0] eqn:Hx; simpl.
  - destruct (list_map_raising f xs) as [ys|e1]; simpl; [done|].
    intros [= <-]. destruct (IH eq_refl) as (x' & Hin & Hx').
    exists x'. split; [by right|done].
  - intros [= <-]. exists x. split; [left|done].
Qed.

(** X1. Start-up can fail in one way only: when the script does not reach
    [app.run], INTERVALS is set and one of its comma-separated entries is
    refused by [int()], and the exception is that entry's [ValueError].
    Neither SERVICE_NAME nor TARGETS, nor starting the threads, can make
    start-up fail. *)
Theorem X1_startup_fails_only_on_intervals (environ : gmap string string)
    (e : exn) :
  main environ = Raise e →
  ∃ v w msg, environ !! "INTERVALS" = Some v ∧
             w ∈ Py.split "," v ∧ Py.int w = Raise e ∧ e = ValueError msg.
Proof.
  unfold main. destruct (load_config environ) as [cfg|e0] eqn:Hcfg; simpl.
  - destruct (start_periodic_calls_spec cfg) as (tr & -> & _). done.
  - intros [= ->]. unfold load_config in Hcfg.
    destruct (load_INTERVALS environ) as [l|e0] eqn:Hload; simpl in Hcfg;
      [done|]. injection Hcfg as ->.
    destruct (environ !! "INTERVALS") as [v|] eqn:Hv.
    + rewrite (load_INTERVALS_set _ _ Hv) in Hload.
      apply list_map_raising_Raise_inv in Hload as (w & Hw & Hint).
      destruct (int_raises_ValueError _ _ Hint) as [msg Hmsg].
      by exists v, w, msg.
    + by rewrite (load_INTERVALS_unset _ Hv) in Hload.
Qed.

Lemma X1_witness :
  ∃ v w msg, ({[ "TARGETS" := "a"; "INTERVALS" := "5,x" ]} : gmap string string)
             !! "INTERVALS" = Some v ∧
             w ∈ Py.split "," v ∧ Py.int w = Raise Py.invalid_literal ∧
             Py.invalid_literal = ValueError msg.
Proof.
  apply (X1_startup_fails_only_on_intervals
           {[ "TARGETS" := "a"; "INTERVALS" := "5,x" ]} Py.invalid_literal).
  vm_compute. reflexivity.
Defined.

Lemma start_from_trace cfg i targets :
  start_from cfg i targets
  = (concat (start_record (SERVICE_NAME cfg)
               <$> expected_from (INTERVALS cfg) i targets), Ok tt).
Proof.
  revert i. induction targets as [|target rest IH]; intros i; [done|].
  rewrite expected_from_cons. simpl. rewrite IH.
  destruct (Py.truthy target); [|done].
  pose proof (getitem_paired (INTERVALS cfg) i) as Hget.
  case_bool_decide; rewrite Hget || (injection Hget as <-); done.
Qed.

Lemma start_records_length name (l : list (string * Z)) :
  length (concat (start_record name <$> l)) = (2 * length l)%nat.
Proof.
  induction l as [|a l IH]; [done|]. rewrite fmap_cons. cbn [concat].
  rewrite length_app, IH. cbn [start_record length]. lia.
Qed.

(** X2. Starting the pool emits, for every non-empty target in order, the
    thread start followed by the log line "Started periodic calls to
    <target> every <interval>s", with the target and the interval that the
    thread was given, and nothing else; it never raises. *)
Theorem X2_startup_log_reports_each_thread (cfg : config) :
  start_periodic_calls cfg
  = (concat (start_record (SERVICE_NAME cfg)
               <$> started (start_periodic_calls cfg).1), Ok tt) ∧
  started (start_periodic_calls cfg).1
  = expected_threads (TARGETS cfg) (INTERVALS cfg) ∧
  length (start_periodic_calls cfg).1
  = (2 * length (filter (λ t, t ≠ "") (TARGETS cfg)))%nat.
Proof.
  destruct (start_periodic_calls_spec cfg) as (tr & Hrun & Hst).
  pose proof (start_from_trace cfg 0 (TARGETS cfg)) as Htrace.
  fold (start_periodic_calls cfg) in Htrace.
  fold (expected_threads (TARGETS cfg) (INTERVALS cfg)) in Htrace.
  rewrite Hrun in *. simpl. rewrite Hst. split; [done|]. split; [done|].
  injection Htrace as ->.
  rewrite <- (expected_from_names (INTERVALS cfg) 0), length_fmap.
  apply start_records_length.
Qed.

(** ** The poll loop, whatever the world does *)

(** X3. The loop keeps no memory of earlier iterations: running it on the
    outcomes [nets1 ++ nets2] is running it on [nets1] and, when the thread
    is still in its loop, continuing from scratch on [nets2].  Earlier
    failures change nothing in later iterations: there is no counter, no
    back-off and no cap. *)
Theorem X3_make_request_resumes (name target : string) (interval : Z)
    (nets1 nets2 : list moment) :
  make_request name target interval (nets1 ++ nets2)
  = match make_request name target interval nets1 with
    | (tr1, Ok StillLooping) =>
        (tr1 ++ (make_request name target interval nets2).1,
         (make_request name target interval nets2).2)
    | (tr1, Raise e) => (tr1, Raise e)
    end.
Proof.
  induction nets1 as [|net nets1 IH].
  - simpl. by destruct (make_request name target interval nets2).
  - rewrite <- app_comm_cons, !make_request_cons.
    destruct (Py.sleep (monotonic_ns net) interval) as [[]|e]; [|done].
    rewrite IH.
    destruct (make_request name target interval nets1) as [tr1 [[]|e]];
      simpl; done.
Qed.


Lemma gets_app tr1 tr2 : gets (tr1 ++ tr2) = gets tr1 ++ gets tr2.
Proof. apply omap_app. Qed.


Lemma gets_ticks name target interval (nets : list get_outcome) :
  gets (concat (tick name target interval <$> nets))
  = replicate (length nets) ("http://" +:+ target, 5).
Proof.
  induction nets as [|net nets IH]; [done|].
  rewrite fmap_cons. cbn [concat]. rewrite gets_app, IH. by destruct net.
Qed.





(** X5. The network cannot end a poll thread.  When [make_request] is ended
    by an exception, that exception is one that [time.sleep] has raised
    for the thread's interval, at the clock reading of the last iteration,
    never one of [requests.get]: [OverflowError] for an interval outside
    -9223372036..9223372036, [ValueError] for any other negative interval,
    and [OSError] for a deadline beyond the range of the clock.  The
    outcome of the last GET has been logged, and the thread has not slept
    after it. *)
Theorem X5_thread_ended_only_by_sleep (name target : string) (interval : Z)
    (world : list moment) (e : exn) :
  (make_request name target interval world).2 = Raise e →
  ∃ before m after,
    world = before ++ m :: after ∧
    Forall (λ m', Py.sleep (monotonic_ns m') interval = Ok tt) before ∧
    Py.sleep (monotonic_ns m) interval = Raise e ∧
    (make_request name target interval world).1
    = concat ((λ m', tick name target interval (outcome m')) <$> before)
        ++ attempt name target (outcome m) ∧
    ((interval < - Py.sleep_max ∨ Py.sleep_max < interval) ∧
     e = OverflowError "timestamp too large to convert to C _PyTime_t" ∨
     - Py.sleep_max ≤ interval < 0 ∧
     e = ValueError "sleep length must be non-negative" ∨
     0 ≤ interval ≤ Py.sleep_max ∧
     Py.wrap64 (monotonic_ns m + interval * 1000000000) < 0 ∧
     e = OSError "[Errno 22] Invalid argument").
Proof.
  induction world as [|m world IH]; [done|]. rewrite make_request_cons.
  destruct (Py.sleep (monotonic_ns m) interval) as [[]|e0] eqn:Hsleep; simpl.
  - intros (before & m' & after & -> & Hbefore & Hm' & Htr & He)%IH.
    exists (m :: before), m', after. split; [done|].
    split; [by constructor|]. split; [done|]. split; [|done].
    rewrite Htr, fmap_cons. cbn [concat]. by rewrite <- app_assoc.
  - intros [= ->]. exists [], m, world. split; [done|].
    split; [constructor|]. split; [done|]. split; [done|].
    unfold Py.sleep in Hsleep.
    destruct (Z.ltb_spec interval (- Py.sleep_max)).
    { left. simpl in Hsleep. split; [by left|congruence]. }
    destruct (Z.ltb_spec Py.sleep_max interval).
    { left. simpl in Hsleep. split; [by right|congruence]. }
    cbn [orb] in Hsleep.
    destruct (Z.ltb_spec interval 0).
    { right. left. split; [done|congruence]. }
    destruct (Z.ltb_spec (Py.wrap64 (monotonic_ns m + interval * 1000000000)) 0);
      [|done].
    right. right. split; [done|]. split; [done|congruence].
Qed.

Lemma X5_witness :
  ∃ before m after,
    [Moment (Responded 200) 1000;
     Moment (Failed (RequestException "Connection refused"))
            9223372036854775000]
    = before ++ m :: after ∧
    Forall (λ m', Py.sleep (monotonic_ns m') 5 = Ok tt) before ∧
    Py.sleep (monotonic_ns m) 5 = Raise (OSError "[Errno 22] Invalid argument").
Proof.
  destruct (X5_thread_ended_only_by_sleep "svc" "a" 5
              [Moment (Responded 200) 1000;
               Moment (Failed (RequestException "Connection refused"))
                      9223372036854775000]
              (OSError "[Errno 22] Invalid argument") eq_refl)
    as (before & m & after & Hworld & Hbefore & Hm & _).
  exists before, m, after. split; [exact Hworld|]. split; [exact Hbefore|].
  exact Hm.
Defined.

(** ** Commas and white space in the configuration *)

Lemma split_app (sep : ascii) (a b : string) :
  Py.split sep (a +:+ String sep b) = Py.split sep a ++ Py.split sep b.
Proof.
  induction a as [|c a IH]; simpl.
  - by rewrite Ascii.eqb_refl.
  - rewrite IH. destruct (Ascii.eqb c sep); [done|].
    by destruct (split_cons sep a) as (w & ws & ->).
Qed.

Lemma load_TARGETS_comma (environ : gmap string string) (a b : string) :
  environ !! "TARGETS" = Some (a +:+ "," +:+ b) →
  load_TARGETS environ = Py.split "," a ++ Py.split "," b.
Proof.
  intros Hset. unfold load_TARGETS, Py.getenv, Py.getenv_default.
  rewrite Hset. unfold Py.truthy_opt.
  destruct (String.eqb_spec (a +:+ "," +:+ b) "") as [Hempty|_].
  - by destruct a.
  - apply split_app.
Qed.

(** X7. Splitting at the commas goes through concatenation: when TARGETS
    is [a,b], whatever [a] and [b] are, the targets are the entries of
    [a] followed by the entries of [b], so that nothing is lost or merged
    at a comma. *)
Theorem X7_targets_of_a_comma_b (environ : gmap string string) (a b : string) :
  environ !! "TARGETS" = Some (a +:+ "," +:+ b) →
  load_TARGETS environ = Py.split "," a ++ Py.split "," b.
Proof. apply load_TARGETS_comma. Qed.

Lemma X7_witness :
  load_TARGETS {[ "TARGETS" := "h1:80,,h2:80," ]} = ["h1:80"; ""] ++ ["h2:80"; ""].
Proof.
  apply (X7_targets_of_a_comma_b {[ "TARGETS" := "h1:80,,h2:80," ]}
           "h1:80," "h2:80,").
  reflexivity.
Defined.

(** X8. An empty field in INTERVALS is fatal: when the value starts with a
    comma, ends with a comma or has two commas in a row, the script raises
    [ValueError] and never reaches [app.run]. *)
Theorem X8_intervals_empty_field_is_fatal (environ : gmap string string)
    (a b : string) :
  environ !! "INTERVALS" = Some (a +:+ "," +:+ b) →
  a = "" ∨ b = "" ∨ (∃ b', b = "," +:+ b') →
  ∃ msg, main environ = Raise (ValueError msg).
Proof.
  intros Hset Hempty.
  assert ("" ∈ Py.split "," (a +:+ "," +:+ b)) as Hin.
  { change (a +:+ "," +:+ b) with (a +:+ String ","%char b).
    rewrite split_app. destruct Hempty as [->|[->|[b' ->]]].
    - apply elem_of_app. left. simpl. left.
    - apply elem_of_app. right. simpl. left.
    - apply elem_of_app. right. simpl. left. }
  destruct (list_map_raising_Raise Py.int _ "" Py.invalid_literal Hin eq_refl)
    as (e & Hload & w & _ & Hw).
  apply int_raises_ValueError in Hw as [msg ->].
  exists msg. apply main_crashes. by rewrite (load_INTERVALS_set _ _ Hset).
Qed.

Lemma X8_witness :
  ∃ msg, main {[ "TARGETS" := "a"; "INTERVALS" := "5," ]}
         = Raise (ValueError msg).
Proof.
  apply (X8_intervals_empty_field_is_fatal
           {[ "TARGETS" := "a"; "INTERVALS" := "5," ]} "5" "").
  - reflexivity.
  - right. left. reflexivity.
Defined.

Lemma expected_from_snoc_empty intervals i targets :
  expected_from intervals i (targets ++ [""]) = expected_from intervals i targets.
Proof.
  revert i. induction targets as [|t rest IH]; intros i; [done|].
  rewrite <- app_comm_cons, !expected_from_cons. by rewrite IH.
Qed.

Lemma main_threads environ p :
  main environ = Ok p →
  load_config environ = Ok (p_config p) ∧
  p_threads p
  = spawn <$> expected_threads (TARGETS (p_config p)) (INTERVALS (p_config p)).
Proof.
  unfold main. destruct (load_config environ) as [cfg|e]; simpl; [|done].
  destruct (start_periodic_calls_spec cfg) as (tr & -> & Hst). simpl.
  intros [= <-]. simpl. by rewrite Hst.
Qed.

(** X9. A trailing comma in TARGETS is harmless for the pool: for a
    non-empty value [v], with [v,] in place of [v] the script still
    reaches [app.run], the targets get one more entry at the end, the
    empty string, and the threads started are the same, with the same
    intervals. *)
Theorem X9_targets_trailing_comma (environ : gmap string string) (v : string)
    (p : process) :
  environ !! "TARGETS" = Some v →
  v ≠ "" →
  main environ = Ok p →
  ∃ p', main (<["TARGETS" := v +:+ ","]> environ) = Ok p' ∧
        TARGETS (p_config p') = TARGETS (p_config p) ++ [""] ∧
        INTERVALS (p_config p') = INTERVALS (p_config p) ∧
        p_threads p' = p_threads p.
Proof.
  intros Hset Hv Hmain. destruct (main_threads _ _ Hmain) as [Hcfg Hthreads].
  destruct (load_config_fields _ _ Hcfg) as (Hname & Htargets & Hintervals).
  assert (TARGETS (p_config p) = Py.split "," v) as Hsplit.
  { rewrite Htargets. unfold load_TARGETS, Py.getenv, Py.getenv_default.
    rewrite Hset. simpl. by destruct (String.eqb_spec v ""). }
  set (environ' := <["TARGETS" := v +:+ ","]> environ).
  assert (load_TARGETS environ' = Py.split "," v ++ [""]) as Htargets'.
  { rewrite (load_TARGETS_comma environ' v ""); [done|].
    unfold environ'. by rewrite lookup_insert_eq. }
  assert (load_config environ'
          = Ok (Config (SERVICE_NAME (p_config p)) (Py.split "," v ++ [""])
                       (INTERVALS (p_config p)))) as Hcfg'.
  { unfold load_config.
    replace (load_INTERVALS environ') with (load_INTERVALS environ).
    - rewrite Hintervals. simpl. rewrite Htargets', Hname. f_equal. f_equal.
      unfold load_SERVICE_NAME, Py.getenv_default, environ'.
      by rewrite lookup_insert_ne.
    - unfold load_INTERVALS, Py.getenv_default, environ'.
      by rewrite lookup_insert_ne. }
  destruct (main_serves _ _ Hcfg') as (p' & Hmain' & Hp').
  exists p'. split; [done|]. rewrite Hp'. simpl. rewrite Hsplit.
  split; [done|]. split; [done|].
  destruct (main_threads _ _ Hmain') as [_ ->]. rewrite Hp', Hthreads. simpl.
  f_equal. unfold expected_threads. rewrite expected_from_snoc_empty.
  by rewrite Hsplit.
Qed.

Lemma X9_witness :
  ∃ p p', main {[ "TARGETS" := "a,b"; "INTERVALS" := "5" ]} = Ok p ∧
          main (<["TARGETS" := "a,b,"]>
                  {[ "TARGETS" := "a,b"; "INTERVALS" := "5" ]}) = Ok p' ∧
          TARGETS (p_config p') = TARGETS (p_config p) ++ [""] ∧
          p_threads p' = p_threads p.
Proof.
  assert (∃ p, main {[ "TARGETS" := "a,b"; "INTERVALS" := "5" ]} = Ok p)
    as [p Hmain] by (eexists; reflexivity).
  assert (({[ "TARGETS" := "a,b"; "INTERVALS" := "5" ]} : gmap string string)
          !! "TARGETS" = Some "a,b") as Hset by reflexivity.
  destruct (X9_targets_trailing_comma _ "a,b" p Hset ltac:(discriminate) Hmain)
    as (p' & Hmain' & Htargets & _ & Hthreads).
  exists p, p'. split; [exact Hmain|]. split; [exact Hmain'|].
  split; [exact Htargets|exact Hthreads].
Defined.

(** ** Lists of different lengths *)

Lemma expected_from_ext intervals1 intervals2 i targets :
  (∀ k, (k < length targets)%nat →
        paired_interval intervals1 (i + k) = paired_interval intervals2 (i + k)) →
  expected_from intervals1 i targets = expected_from intervals2 i targets.
Proof.
  intros Hsame. unfold expected_from. f_equal. apply imap_ext.
  intros k target Hk. simpl. apply lookup_lt_Some in Hk.
  by rewrite Hsame.
Qed.

Lemma start_periodic_calls_ext name targets intervals1 intervals2 :
  (∀ k, (k < length targets)%nat →
        paired_interval intervals1 k = paired_interval intervals2 k) →
  start_periodic_calls (Config name targets intervals1)
  = start_periodic_calls (Config name targets intervals2).
Proof.
  intros Hsame. unfold start_periodic_calls. rewrite !start_from_trace.
  simpl. by rewrite (expected_from_ext intervals1 intervals2 0 targets).
Qed.

(** X10. Intervals beyond the last target are never used: when there are
    at least as many intervals as targets, any further intervals change
    nothing in what [start_periodic_calls] does, neither the threads nor
    the log. *)
Theorem X10_surplus_intervals_ignored (name : string) (targets : list string)
    (intervals more : list Z) :
  (length targets ≤ length intervals)%nat →
  start_periodic_calls (Config name targets (intervals ++ more))
  = start_periodic_calls (Config name targets intervals).
Proof.
  intros Hlen. apply start_periodic_calls_ext. intros k Hk.
  unfold paired_interval. rewrite lookup_app_l; [done|lia].
Qed.

Lemma X10_witness :
  start_periodic_calls (Config "svc" ["a"; "b"] ([5; 10] ++ [15; 20]))
  = start_periodic_calls (Config "svc" ["a"; "b"] [5; 10]).
Proof.
  apply X10_surplus_intervals_ignored. simpl. lia.
Defined.

(** X11. A short list of intervals is the same as that list padded with
    60s: appending any number of 60s to INTERVALS changes nothing in what
    [start_periodic_calls] does.  So the fallback is not a special mode,
    it is the value 60 at every missing position. *)
Theorem X11_missing_intervals_are_60 (name : string) (targets : list string)
    (intervals : list Z) (n : nat) :
  start_periodic_calls (Config name targets (intervals ++ replicate n 60))
  = start_periodic_calls (Config name targets intervals).
Proof.
  apply start_periodic_calls_ext. intros k _. unfold paired_interval.
  destruct (decide (k < length intervals)%nat) as [Hk|Hk].
  - by rewrite lookup_app_l.
  - rewrite lookup_app_r by lia. rewrite (lookup_ge_None_2 intervals) by lia.
    destruct (replicate n 60 !! (k - length intervals)%nat) as [x|] eqn:Hx;
      [|done].
    by apply lookup_replicate_1 in Hx as [-> _].
Qed.

(** X12. The pool is bounded by the number of targets and holds one thread
    per non-empty target, with that target as its argument and in the
    order of TARGETS; so a process without a non-empty target serves with
    no poll thread at all. *)
Theorem X12_pool_size (environ : gmap string string) (p : process) :
  main environ = Ok p →
  th_target <$> p_threads p = filter (λ t, t ≠ "") (load_TARGETS environ) ∧
  (length (p_threads p) ≤ length (load_TARGETS environ))%nat ∧
  (Forall (λ t, t = "") (load_TARGETS environ) → p_threads p = []).
Proof.
  intros Hmain. destruct (main_threads _ _ Hmain) as [Hcfg Hthreads].
  destruct (load_config_fields _ _ Hcfg) as (_ & Htargets & _).
  rewrite Htargets in Hthreads.
  assert (th_target <$> p_threads p
          = filter (λ t, t ≠ "") (load_TARGETS environ)) as Hnames.
  { rewrite Hthreads, <- list_fmap_compose.
    rewrite <- (expected_from_names (INTERVALS (p_config p)) 0).
    by apply list_fmap_ext. }
  split; [done|]. split.
  - rewrite <- (length_fmap th_target), Hnames. apply length_filter.
  - intros Hempty. apply (fmap_nil_inv th_target). rewrite Hnames.
    clear -Hempty. induction Hempty as [|t l Ht _ IH]; [done|].
    rewrite filter_cons, decide_False; [done|]. by intros Hne.
Qed.

Lemma X12_witness :
  ∃ p, main {[ "TARGETS" := ",," ]} = Ok p ∧ p_threads p = [].
Proof.
  assert (∃ p, main {[ "TARGETS" := ",," ]} = Ok p) as [p Hmain]
    by (eexists; reflexivity).
  exists p. split; [exact Hmain|].
  apply (proj2 (proj2 (X12_pool_size _ p Hmain))).
  apply (bool_decide_unpack _). reflexivity.
Defined.

(** ** White space around an interval *)

Section int_padding.
Import Py.

Lemma space_not_underscore c : int_space c = true → is_underscore c = false.
Proof.
  unfold int_space, is_underscore. set (n := code c).
  destruct ((9 <=? n) && (n <=? 13)) eqn:H1, (n =? 32) eqn:H2,
    (n =? 133) eqn:H3, (n =? 160) eqn:H4; simpl; try done; lia.
Qed.

Lemma space_no_digit c : int_space c = true → digit_of c = None.
Proof.
  unfold int_space, digit_of. set (n := code c).
  destruct ((48 <=? n) && (n <=? 57)) eqn:Hd; [|done].
  destruct ((9 <=? n) && (n <=? 13)) eqn:H1, (n =? 32) eqn:H2,
    (n =? 133) eqn:H3, (n =? 160) eqn:H4; simpl; try done; lia.
Qed.

Lemma skip_spaces_all s : string_forall int_space s = true → skip_spaces s = "".
Proof.
  induction s as [|c s IH]; [done|]. rewrite string_forall_cons.
  intros [Hc Hs]%andb_prop. simpl. rewrite Hc. by apply IH.
Qed.

Lemma skip_spaces_pre pre s :
  string_forall int_space pre = true →
  skip_spaces (pre +:+ s) = skip_spaces s.
Proof.
  induction pre as [|c pre IH]; [done|]. rewrite string_forall_cons.
  intros [Hc Hs]%andb_prop. simpl. rewrite Hc. by apply IH.
Qed.

Lemma skip_spaces_post s post :
  string_forall int_space post = true →
  skip_spaces (s +:+ post)
  = match skip_spaces s with
    | EmptyString => EmptyString
    | String c r => String c (r +:+ post)
    end.
Proof.
  intros Hpost. induction s as [|c s IH]; simpl.
  - by apply skip_spaces_all.
  - by destruct (int_space c).
Qed.

Lemma scan_digits_post post s : ∀ prev_us acc nd,
  string_forall int_space post = true →
  scan_digits prev_us acc nd (s +:+ post)
  = match scan_digits prev_us acc nd s with
    | Some (v, nd', rest) => Some (v, nd', rest +:+ post)
    | None => None
    end.
Proof.
  induction s as [|c s IH]; intros prev_us acc nd Hpost; simpl.
  - destruct post as [|c post]; simpl; [by destruct prev_us|].
    rewrite string_forall_cons in Hpost. apply andb_prop in Hpost as [Hc _].
    rewrite (space_not_underscore _ Hc), (space_no_digit _ Hc).
    by destruct prev_us.
  - destruct (is_underscore c).
    + destruct prev_us; [done|]. by apply IH.
    + destruct (digit_of c); [by apply IH|]. by destruct prev_us.
Qed.

Lemma int_digits_post sign s post :
  string_forall int_space post = true →
  int_digits sign (s +:+ post) = int_digits sign s.
Proof.
  intros Hpost. destruct s as [|c s].
  - simpl. destruct post as [|c post]; [done|].
    pose proof Hpost as Hc. rewrite string_forall_cons in Hc.
    apply andb_prop in Hc as [Hc _]. unfold int_digits. simpl.
    by rewrite (space_not_underscore _ Hc), (space_no_digit _ Hc).
  - change (String c s +:+ post) with (String c (s +:+ post)).
    unfold int_digits. destruct (is_underscore c); [done|].
    change (String c (s +:+ post)) with (String c s +:+ post).
    rewrite scan_digits_post by done.
    destruct (scan_digits false 0 0 (String c s)) as [[[v nd] s3]|]; [|done].
    destruct (max_str_digits <? nd); [done|]. destruct (nd =? 0); [done|].
    rewrite skip_spaces_post by done. by destruct (skip_spaces s3).
Qed.

Lemma int_pre pre w :
  string_forall int_space pre = true → int (pre +:+ w) = int w.
Proof. intros Hpre. unfold int. by rewrite skip_spaces_pre. Qed.

Lemma int_post w post :
  string_forall int_space post = true → int (w +:+ post) = int w.
Proof.
  intros Hpost. unfold int. rewrite skip_spaces_post by done.
  destruct (skip_spaces w) as [|c r]; [done|].
  destruct (Ascii.eqb c "+"); [by apply int_digits_post|].
  destruct (Ascii.eqb c "-"); [by apply int_digits_post|].
  by apply (int_digits_post 1 (String c r)).
Qed.

End int_padding.

(** X13. White space around an entry of INTERVALS is ignored: whatever the
    entry [w] is, read or refused, [int()] does the same with [w] padded on
    either side with spaces, tabs or other white space.  So "5, 10" is
    read as "5,10" is. *)
Theorem X13_interval_padding_ignored (pre w post : string) :
  Py.string_forall Py.int_space pre = true →
  Py.string_forall Py.int_space post = true →
  Py.int (pre +:+ w +:+ post) = Py.int w.
Proof.
  intros Hpre Hpost. by rewrite int_pre, int_post.
Qed.

Lemma X13_witness :
  Py.int ("  " +:+ "-1_0" +:+ " ") = Ok (-10) ∧
  Py.int (" " +:+ "1 0" +:+ " ") = Raise Py.invalid_literal.
Proof.
  split.
  - rewrite (X13_interval_padding_ignored "  " "-1_0" " " eq_refl eq_refl).
    reflexivity.
  - rewrite (X13_interval_padding_ignored " " "1 0" " " eq_refl eq_refl).
    reflexivity.
Defined.

(** ** A pool that never loses a thread *)

Lemma expected_from_Forall (P : Z → Prop) intervals i targets :
  P 60 → Forall P intervals →
  Forall (λ args, P args.2) (expected_from intervals i targets).
Proof.
  intros H60 Hall. revert i. induction targets as [|t rest IH]; intros i.
  - constructor.
  - rewrite expected_from_cons. apply Forall_app. split; [|apply IH].
    destruct (Py.truthy t); constructor; [|constructor]. simpl.
    unfold paired_interval. destruct (intervals !! i) as [n|] eqn:Hn; [|done].
    by apply (Forall_lookup_1 _ _ _ _ Hall Hn).
Qed.

Lemma outcomes_of_elem i schedule m :
  m ∈ outcomes_of i schedule → (i, m) ∈ schedule.
Proof.
  induction schedule as [|[j m'] schedule IH].
  - by intros ?%elem_of_nil.
  - rewrite outcomes_of_cons. simpl. case_decide as Hj.
    + subst j. intros [->|Hin]%elem_of_cons; [left|right; by apply IH].
    + intros Hin. right. by apply IH.
Qed.

(** X14. While [time.sleep] accepts every interval of the pool (the
    configured ones and the fallback 60) at every clock reading of the
    schedule, no poll thread ever ends: after the schedule, with any mix
    of responses and failures, every thread of the pool is still in its
    loop, has issued one GET for each of its moments, and its trace is the
    iterations for those moments, in order. *)
Theorem X14_pool_never_loses_a_thread (environ : gmap string string)
    (p : process) (schedule : list (nat * moment)) (i : nat) (t : thread) :
  main environ = Ok p →
  (∀ s n, s ∈ schedule → n ∈ 60 :: INTERVALS (p_config p) →
          sleep_fits (monotonic_ns s.2) n) →
  p_threads (polls schedule p) !! i = Some t →
  th_state t = Ok StillLooping ∧
  th_trace t
  = concat ((λ m, tick (SERVICE_NAME (p_config p)) (th_target t)
                       (th_interval t) (outcome m))
              <$> outcomes_of i schedule) ∧
  length (gets (th_trace t)) = length (outcomes_of i schedule).
Proof.
  intros Hmain Hall. rewrite polls_lookup.
  destruct (p_threads p !! i) as [t0|] eqn:Hi; simpl; [|done].
  intros [= <-].
  destruct (main_threads_fresh _ _ _ _ Hmain Hi) as [Hloop Hfresh].
  assert (th_interval t0 ∈ 60 :: INTERVALS (p_config p)) as Hinterval.
  { destruct (main_threads _ _ Hmain) as [_ Hthreads].
    rewrite Hthreads, list_lookup_fmap in Hi.
    destruct (expected_threads _ _ !! i) as [args|] eqn:Hargs; [|done].
    injection Hi as <-. simpl.
    pose proof (expected_from_Forall
                  (λ n, n ∈ 60 :: INTERVALS (p_config p))
                  (INTERVALS (p_config p)) 0 (TARGETS (p_config p))) as Hok.
    apply (Forall_lookup_1 _ _ _ _ (Hok ltac:(left) ltac:(
             apply Forall_forall; intros; by right)) Hargs). }
  assert (Forall (λ m, sleep_fits (monotonic_ns m) (th_interval t0))
                 (outcomes_of i schedule)) as Hfits.
  { apply Forall_forall. intros m Hm%outcomes_of_elem.
    by apply (Hall (i, m)). }
  rewrite thread_run_make_request by done.
  rewrite make_request_loops by done. simpl. rewrite Hfresh. simpl.
  split; [done|]. split; [done|].
  replace ((λ m, tick (SERVICE_NAME (p_config p)) (th_target t0)
                      (th_interval t0) (outcome m))
             <$> outcomes_of i schedule)
    with (tick (SERVICE_NAME (p_config p)) (th_target t0) (th_interval t0)
            <$> (outcome <$> outcomes_of i schedule))
    by (by rewrite <- list_fmap_compose).
  by rewrite gets_ticks, length_replicate, length_fmap.
Qed.

Lemma X14_witness :
  ∃ p t, main {[ "TARGETS" := "a,b"; "INTERVALS" := "0" ]} = Ok p ∧
         p_threads (polls [(1%nat, Moment (Failed (RequestException "Read timed out")) 1000);
                           (0%nat, Moment (Responded 500) 2000);
                           (1%nat, Moment (Responded 200) 60000001000)] p)
           !! 1%nat = Some t ∧
         th_state t = Ok StillLooping ∧
         length (gets (th_trace t)) = 2%nat.
Proof.
  assert (∃ p, main {[ "TARGETS" := "a,b"; "INTERVALS" := "0" ]} = Ok p ∧
               p_config p = Config "unknown" ["a"; "b"] [0] ∧
               p_threads p = [spawn ("a", 0); spawn ("b", 60)])
    as (p & Hmain & Hcfg & Hthreads) by (eexists; split_and!; reflexivity).
  set (schedule := [(1%nat, Moment (Failed (RequestException "Read timed out")) 1000);
                    (0%nat, Moment (Responded 500) 2000);
                    (1%nat, Moment (Responded 200) 60000001000)]).
  assert (∃ t, p_threads (polls schedule p) !! 1%nat = Some t) as [t Ht].
  { rewrite polls_lookup, Hthreads. simpl. by eexists. }
  assert (∀ s n, s ∈ schedule → n ∈ 60 :: INTERVALS (p_config p) →
                 sleep_fits (monotonic_ns s.2) n) as Hall.
  { rewrite Hcfg. simpl. intros s n Hs Hn. unfold schedule in Hs.
    rewrite !elem_of_cons, elem_of_nil in Hs.
    rewrite !elem_of_cons, elem_of_nil in Hn.
    destruct Hs as [->|[->|[->|[]]]], Hn as [->|[->|[]]];
      vm_compute; split_and!; discriminate. }
  destruct (X14_pool_never_loses_a_thread _ p schedule 1 t Hmain Hall Ht)
    as (Hstate & _ & Hgets).
  exists p, t. split; [exact Hmain|]. split; [exact Ht|].
  split; [exact Hstate|exact Hgets].
Defined.
